(** * i2clcd: an HD44780 character LCD behind a PCF8574 I2C expander

    Shallow embedding of [i2clcd.go].  The driver is a set of methods on
    [*I2CLCD]; each of them mutates the receiver's fields, calls
    [machine.I2C.Tx] and [time.Sleep].  Methods are embedded as computations
    in a state monad over the receiver and the outside world (the bus and
    the clock), whose outcome is either a normal return or a Go run-time
    panic. *)

From Stdlib Require Import String Ascii ZArith List Bool Lia.
Import ListNotations.
Open Scope Z_scope.

(** ** Machine integers *)

(** [uint8] arithmetic wraps around modulo 2^8. *)
Definition uint8 (x : Z) : Z := x mod 256.

(** [^byte(x)]: bitwise complement of a byte. *)
Definition not8 (x : Z) : Z := uint8 (Z.lnot x).

(** ** The outside world: [machine.I2C] and [time] *)

(** What the driver does to the outside world, in program order. *)
Inductive Event : Type :=
| EvTx (address : Z) (w : list Z)   (* bus.Tx(address, w, nil) *)
| EvSleep (ms : Z).                 (* time.Sleep(ms * time.Millisecond) *)

(** The only error the bus reports. *)
Inductive TransportError : Type := ErrTx.

(** The world keeps the trace of events so far.  Whether a transaction
    fails is decided by the bus, not by the driver: [faulty k] tells whether
    the transaction issued when the trace holds [k] events fails.  [errors]
    logs the positions of the transactions for which [Tx] returned an
    error. *)
Record World : Type := mkWorld {
  faulty : nat -> bool;
  trace  : list Event;
  errors : list nat
}.

(** ** The session *)

(** [type I2CLCD struct]; the [bus] pointer is the single bus of [World]. *)
Record I2CLCD : Type := mkI2CLCD {
  addr      : Z;
  cols      : Z;
  rows      : Z;
  backlight : bool;
  display   : bool;
  cursor    : bool;
  blink     : bool
}.

Record St : Type := mkSt { lcd : I2CLCD; world : World }.

(** ** Constants *)

Definition LCD_CLEARDISPLAY   : Z := 0x01.
Definition LCD_RETURNHOME     : Z := 0x02.
Definition LCD_ENTRYMODESET   : Z := 0x04.
Definition LCD_DISPLAYCONTROL : Z := 0x08.
Definition LCD_CURSORSHIFT    : Z := 0x10.
Definition LCD_FUNCTIONSET    : Z := 0x20.
Definition LCD_SETCGRAMADDR   : Z := 0x40.
Definition LCD_SETDDRAMADDR   : Z := 0x80.

Definition LCD_ENTRYRIGHT          : Z := 0x00.
Definition LCD_ENTRYLEFT           : Z := 0x02.
Definition LCD_ENTRYSHIFTINCREMENT : Z := 0x01.
Definition LCD_ENTRYSHIFTDECREMENT : Z := 0x00.

Definition LCD_DISPLAYON  : Z := 0x04.
Definition LCD_DISPLAYOFF : Z := 0x00.
Definition LCD_CURSORON   : Z := 0x02.
Definition LCD_CURSOROFF  : Z := 0x00.
Definition LCD_BLINKON    : Z := 0x01.
Definition LCD_BLINKOFF   : Z := 0x00.

Definition LCD_BACKLIGHT   : Z := 0x08.
Definition LCD_NOBACKLIGHT : Z := 0x00.

Definition LCD_MOVELEFT    : Z := 0x00.
Definition LCD_MOVERIGHT   : Z := 0x04.
Definition LCD_SCROLLLEFT  : Z := 0x18.
Definition LCD_SCROLLRIGHT : Z := 0x1C.

(** ** The monad of methods *)

(** A run-time panic of the Go program. *)
Inductive GoPanic : Type :=
| IndexOutOfRange (index len : nat).  (* index out of range [index] with length len *)

Inductive Res (A : Type) : Type :=
| Ret (a : A)
| Panicked (p : GoPanic).
Arguments Ret {A} a.
Arguments Panicked {A} p.

Definition M (A : Type) : Type := St -> Res A * St.

Definition ret {A} (a : A) : M A := fun s => (Ret a, s).

Definition bind {A B} (m : M A) (k : A -> M B) : M B :=
  fun s =>
    match m s with
    | (Ret a, s') => k a s'
    | (Panicked p, s') => (Panicked p, s')
    end.

Definition panic {A} (p : GoPanic) : M A := fun s => (Panicked p, s).

Declare Scope go_scope.
Delimit Scope go_scope with go.
Notation "x <- m ;; k" := (bind m (fun x => k))
  (at level 61, m at next level, right associativity) : go_scope.
Notation "m ;; k" := (bind m (fun _ => k))
  (at level 61, right associativity) : go_scope.
Open Scope go_scope.

(** Reading and updating the receiver. *)
Definition this : M I2CLCD := fun s => (Ret (lcd s), s).

Definition update (f : I2CLCD -> I2CLCD) : M unit :=
  fun s => (Ret tt, mkSt (f (lcd s)) (world s)).

Definition set_backlight (b : bool) (l : I2CLCD) : I2CLCD :=
  mkI2CLCD (addr l) (cols l) (rows l) b (display l) (cursor l) (blink l).
Definition set_display (b : bool) (l : I2CLCD) : I2CLCD :=
  mkI2CLCD (addr l) (cols l) (rows l) (backlight l) b (cursor l) (blink l).
Definition set_cursor (b : bool) (l : I2CLCD) : I2CLCD :=
  mkI2CLCD (addr l) (cols l) (rows l) (backlight l) (display l) b (blink l).
Definition set_blink (b : bool) (l : I2CLCD) : I2CLCD :=
  mkI2CLCD (addr l) (cols l) (rows l) (backlight l) (display l) (cursor l) b.

(** Appending an event to the trace; a failed transaction is logged. *)
Definition log (e : Event) (failed : bool) (wd : World) : World :=
  mkWorld (faulty wd) (trace wd ++ [e])
          (if failed then errors wd ++ [length (trace wd)] else errors wd).

(** [machine.I2C.Tx(addr, w, nil) error]: the transaction is attempted (it
    enters the trace) and the bus answers [nil] or an error. *)
Definition Tx (address : Z) (w : list Z) : M (option TransportError) :=
  fun s =>
    let wd := world s in
    let failed := faulty wd (length (trace wd)) in
    (Ret (if failed then Some ErrTx else None),
     mkSt (lcd s) (log (EvTx address w) failed wd)).

(** [time.Sleep(ms * time.Millisecond)]. *)
Definition Sleep (ms : Z) : M unit :=
  fun s => (Ret tt, mkSt (lcd s) (log (EvSleep ms) false (world s))).

(** [for _, x := range xs { body(x) }] *)
Fixpoint for_each {A} (xs : list A) (body : A -> M unit) : M unit :=
  match xs with
  | [] => ret tt
  | x :: xs' => body x ;; for_each xs' body
  end.

(** [for i := from; i < from + n; i++ { body(i) }] *)
Fixpoint for_count (n : nat) (from : nat) (body : nat -> M unit) : M unit :=
  match n with
  | O => ret tt
  | S n' => body from ;; for_count n' (S from) body
  end.

(** [xs[i]] on a slice: panics out of range. *)
Definition index (xs : list Z) (i : nat) : M Z :=
  match nth_error xs i with
  | Some x => ret x
  | None => panic (IndexOutOfRange i (length xs))
  end.

(** ** Ranging over a Go string

    [for _, char := range text] decodes UTF-8: each iteration yields one
    rune and advances by its encoded width; a byte that does not start a
    well-formed encoding yields U+FFFD and advances by one byte. *)
Module Utf8.

Definition RuneError : Z := 0xFFFD.

Definition between (lo hi b : Z) : bool := (lo <=? b) && (b <=? hi).

(** Width of the encoding a lead byte announces and the range accepted for
    the byte after it; [None] for a byte that cannot start an encoding. *)
Definition lead (b0 : Z) : option (nat * (Z * Z)) :=
  if between 0xC2 0xDF b0 then Some (2%nat, (0x80, 0xBF))
  else if b0 =? 0xE0 then Some (3%nat, (0xA0, 0xBF))
  else if between 0xE1 0xEC b0 then Some (3%nat, (0x80, 0xBF))
  else if b0 =? 0xED then Some (3%nat, (0x80, 0x9F))
  else if between 0xEE 0xEF b0 then Some (3%nat, (0x80, 0xBF))
  else if b0 =? 0xF0 then Some (4%nat, (0x90, 0xBF))
  else if between 0xF1 0xF3 b0 then Some (4%nat, (0x80, 0xBF))
  else if b0 =? 0xF4 then Some (4%nat, (0x80, 0x8F))
  else None.

Definition cont (b : Z) : bool := between 0x80 0xBF b.

Definition low6 (b : Z) : Z := Z.land b 0x3F.

Fixpoint runes (s : list Z) : list Z :=
  match s with
  | [] => []
  | b0 :: r0 =>
    if b0 <? 0x80 then b0 :: runes r0
    else
      match lead b0 with
      | None => RuneError :: runes r0
      | Some (sz, (lo, hi)) =>
        match r0 with
        | [] => RuneError :: runes r0
        | b1 :: r1 =>
          if negb (between lo hi b1) then RuneError :: runes r0
          else if Nat.eqb sz 2 then
            Z.lor (Z.shiftl (Z.land b0 0x1F) 6) (low6 b1) :: runes r1
          else
            match r1 with
            | [] => RuneError :: runes r0
            | b2 :: r2 =>
              if negb (cont b2) then RuneError :: runes r0
              else if Nat.eqb sz 3 then
                Z.lor (Z.lor (Z.shiftl (Z.land b0 0x0F) 12)
                             (Z.shiftl (low6 b1) 6)) (low6 b2) :: runes r2
              else
                match r2 with
                | [] => RuneError :: runes r0
                | b3 :: r3 =>
                  if negb (cont b3) then RuneError :: runes r0
                  else
                    Z.lor (Z.lor (Z.lor (Z.shiftl (Z.land b0 0x07) 18)
                                        (Z.shiftl (low6 b1) 12))
                                 (Z.shiftl (low6 b2) 6)) (low6 b3) :: runes r3
                end
            end
        end
      end
  end.

(** The bytes of a string. *)
Fixpoint bytes (s : string) : list Z :=
  match s with
  | EmptyString => []
  | String c s' => Z.of_nat (nat_of_ascii c) :: bytes s'
  end.

(** The runes [range] yields on a string. *)
Definition range (s : string) : list Z := runes (bytes s).

End Utf8.

(** [byte(char)] on a rune: keeps the low 8 bits. *)
Definition byte_of_rune (r : Z) : Z := uint8 r.

(** ** The driver *)

(** [NewI2CLCD(bus, addr, cols, rows)] *)
Definition NewI2CLCD (a c r : Z) : I2CLCD :=
  mkI2CLCD a c r true true false false.

(** [expanderWrite]: the error [Tx] returns is dropped. *)
Definition expanderWrite (data : Z) : M unit :=
  l <- this ;;
  let bl := if backlight l then LCD_BACKLIGHT else 0x00 in
  _ <- Tx (addr l) [Z.lor data bl] ;;
  ret tt.

Definition pulseEnable (data : Z) : M unit :=
  expanderWrite (Z.lor data 0x04) ;;
  Sleep 1 ;;
  expanderWrite (Z.land data (not8 0x04)) ;;
  Sleep 1.

Definition write4Bits (value : Z) : M unit :=
  expanderWrite value ;;
  pulseEnable value.

Definition send (value mode : Z) : M unit :=
  let highNibble := Z.land value 0xF0 in
  let lowNibble := Z.land (uint8 (Z.shiftl value 4)) 0xF0 in
  write4Bits (Z.lor highNibble mode) ;;
  write4Bits (Z.lor lowNibble mode).

Definition sendCommand (cmd : Z) : M unit := send cmd 0.

Definition sendData (data : Z) : M unit := send data 1.

Definition Backlight : M unit :=
  update (set_backlight true) ;;
  expanderWrite 0x00.

Definition NoBacklight : M unit :=
  update (set_backlight false) ;;
  expanderWrite 0x00.

Definition Init : M unit :=
  Sleep 50 ;;
  sendCommand 0x03 ;;
  Sleep 5 ;;
  sendCommand 0x03 ;;
  Sleep 5 ;;
  sendCommand 0x03 ;;
  Sleep 1 ;;
  sendCommand 0x02 ;;
  l <- this ;;
  let functionSet := Z.lor LCD_FUNCTIONSET 0x20 in
  let functionSet :=
    if 1 <? rows l then Z.lor functionSet 0x08 else functionSet in
  sendCommand functionSet ;;
  sendCommand (Z.lor LCD_DISPLAYCONTROL LCD_DISPLAYON) ;;
  sendCommand (Z.lor LCD_ENTRYMODESET LCD_ENTRYLEFT) ;;
  sendCommand LCD_CLEARDISPLAY ;;
  Sleep 2 ;;
  Backlight.

Definition Clear : M unit :=
  sendCommand LCD_CLEARDISPLAY ;;
  Sleep 2.

Definition Home : M unit :=
  sendCommand LCD_RETURNHOME ;;
  Sleep 2.

Definition Print (text : string) : M unit :=
  for_each (Utf8.range text) (fun char => sendData (byte_of_rune char)).

Definition SetCursor (col row : Z) : M unit :=
  l <- this ;;
  let row := if rows l <=? row then uint8 (rows l - 1) else row in
  let addr := uint8 (col + uint8 (row * 0x40)) in
  sendCommand (Z.lor LCD_SETDDRAMADDR addr).

Definition DisplayOn : M unit :=
  update (set_display true) ;;
  sendCommand (Z.lor LCD_DISPLAYCONTROL LCD_DISPLAYON).

Definition DisplayOff : M unit :=
  update (set_display false) ;;
  sendCommand (Z.lor LCD_DISPLAYCONTROL LCD_DISPLAYOFF).

Definition CursorOn : M unit :=
  update (set_cursor true) ;;
  sendCommand (Z.lor (Z.lor LCD_DISPLAYCONTROL LCD_DISPLAYON) LCD_CURSORON).

Definition CursorOff : M unit :=
  update (set_cursor false) ;;
  sendCommand (Z.lor (Z.lor LCD_DISPLAYCONTROL LCD_DISPLAYON) LCD_CURSOROFF).

Definition BlinkOn : M unit :=
  update (set_blink true) ;;
  sendCommand (Z.lor (Z.lor LCD_DISPLAYCONTROL LCD_DISPLAYON) LCD_BLINKON).

Definition BlinkOff : M unit :=
  update (set_blink false) ;;
  sendCommand (Z.lor (Z.lor LCD_DISPLAYCONTROL LCD_DISPLAYON) LCD_BLINKOFF).

Definition CreateChar (location : Z) (charmap : list Z) : M unit :=
  let location := Z.land location 0x07 in
  sendCommand (Z.lor LCD_SETCGRAMADDR (uint8 (Z.shiftl location 3))) ;;
  for_count 8 0 (fun i => b <- index charmap i ;; sendData b).

Definition ScrollDisplayLeft : M unit := sendCommand LCD_SCROLLLEFT.
Definition ScrollDisplayRight : M unit := sendCommand LCD_SCROLLRIGHT.
Definition LeftToRight : M unit :=
  sendCommand (Z.lor LCD_ENTRYMODESET LCD_ENTRYLEFT).
Definition RightToLeft : M unit :=
  sendCommand (Z.lor LCD_ENTRYMODESET LCD_ENTRYRIGHT).
Definition ShiftIncrement : M unit :=
  sendCommand (Z.lor LCD_ENTRYMODESET LCD_ENTRYSHIFTINCREMENT).
Definition ShiftDecrement : M unit :=
  sendCommand (Z.lor LCD_ENTRYMODESET LCD_ENTRYSHIFTDECREMENT).
Definition Autoscroll : M unit :=
  sendCommand (Z.lor LCD_ENTRYMODESET LCD_ENTRYSHIFTINCREMENT).
Definition NoAutoscroll : M unit :=
  sendCommand (Z.lor LCD_ENTRYMODESET LCD_ENTRYSHIFTDECREMENT).

(** ** The public surface *)

(** One constructor per exported method, with its arguments. *)
Inductive Op : Type :=
| OpInit
| OpClear
| OpHome
| OpPrint (text : string)
| OpSetCursor (col row : Z)
| OpDisplayOn
| OpDisplayOff
| OpCursorOn
| OpCursorOff
| OpBlinkOn
| OpBlinkOff
| OpBacklight
| OpNoBacklight
| OpCreateChar (location : Z) (charmap : list Z)
| OpScrollDisplayLeft
| OpScrollDisplayRight
| OpLeftToRight
| OpRightToLeft
| OpShiftIncrement
| OpShiftDecrement
| OpAutoscroll
| OpNoAutoscroll.

Definition exec (o : Op) : M unit :=
  match o with
  | OpInit => Init
  | OpClear => Clear
  | OpHome => Home
  | OpPrint text => Print text
  | OpSetCursor col row => SetCursor col row
  | OpDisplayOn => DisplayOn
  | OpDisplayOff => DisplayOff
  | OpCursorOn => CursorOn
  | OpCursorOff => CursorOff
  | OpBlinkOn => BlinkOn
  | OpBlinkOff => BlinkOff
  | OpBacklight => Backlight
  | OpNoBacklight => NoBacklight
  | OpCreateChar location charmap => CreateChar location charmap
  | OpScrollDisplayLeft => ScrollDisplayLeft
  | OpScrollDisplayRight => ScrollDisplayRight
  | OpLeftToRight => LeftToRight
  | OpRightToLeft => RightToLeft
  | OpShiftIncrement => ShiftIncrement
  | OpShiftDecrement => ShiftDecrement
  | OpAutoscroll => Autoscroll
  | OpNoAutoscroll => NoAutoscroll
  end.

(** A caller's program: public operations one after the other. *)
Definition script (os : list Op) : M unit := for_each os exec.

(** ** Observing a run *)

(** Outcome, session and world after running [m] from session [l] in
    world [wd]. *)
Definition outcome {A} (m : M A) (l : I2CLCD) (wd : World) : Res A :=
  fst (m (mkSt l wd)).
Definition session_after {A} (m : M A) (l : I2CLCD) (wd : World) : I2CLCD :=
  lcd (snd (m (mkSt l wd))).
Definition world_after {A} (m : M A) (l : I2CLCD) (wd : World) : World :=
  world (snd (m (mkSt l wd))).

(** The events [m] adds to the trace. *)
Definition events {A} (m : M A) (l : I2CLCD) (wd : World) : list Event :=
  skipn (length (trace wd)) (trace (world_after m l wd)).

(** The transactions of [m] for which the bus returned an error. *)
Definition failures {A} (m : M A) (l : I2CLCD) (wd : World) : list nat :=
  skipn (length (errors wd)) (errors (world_after m l wd)).

(** A bus on which nothing fails, and one on which everything does. *)
Definition healthy : World := mkWorld (fun _ => false) [] [].
Definition broken : World := mkWorld (fun _ => true) [] [].

(** What the caller of a method holds when it returns: the outcome of the
    call (the methods have no result value) and the session object. *)
Definition caller_view {A} (m : M A) (l : I2CLCD) (wd : World)
  : Res A * I2CLCD :=
  (outcome m l wd, session_after m l wd).

(** The world after the events [evs] happened in [wd]. *)
Definition commit1 (wd : World) (e : Event) : World :=
  match e with
  | EvTx _ _ => log e (faulty wd (length (trace wd))) wd
  | EvSleep _ => log e false wd
  end.
Definition commit (evs : list Event) (wd : World) : World :=
  fold_left commit1 evs wd.

(** [yields m l r l' evs]: from session [l], in any world and whatever the
    bus answers, [m] ends with outcome [r] and session [l'] after exactly the
    events [evs]. *)
Definition yields {A} (m : M A) (l : I2CLCD) (r : Res A) (l' : I2CLCD)
  (evs : list Event) : Prop :=
  forall wd, m (mkSt l wd) = (r, mkSt l' (commit evs wd)).

(** ** Expected traces *)

(** The backlight line of the expander. *)
Definition bl_bit (l : I2CLCD) : Z := if backlight l then 0x08 else 0x00.

(** One expander write of [data] by session [l]. *)
Definition wr (l : I2CLCD) (data : Z) : Event :=
  EvTx (addr l) [Z.lor data (bl_bit l)].

(** The bytes written to the expander, in order. *)
Fixpoint tx_bytes (evs : list Event) : list Z :=
  match evs with
  | [] => []
  | EvTx _ w :: evs' => w ++ tx_bytes evs'
  | EvSleep _ :: evs' => tx_bytes evs'
  end.

(** The delays, in order. *)
Fixpoint sleeps (evs : list Event) : list Z :=
  match evs with
  | [] => []
  | EvTx _ _ :: evs' => sleeps evs'
  | EvSleep ms :: evs' => ms :: sleeps evs'
  end.

(** What [write4Bits value] does from session [l]: the nibble is written
    once as it is, then with the enable line high, then with it low again,
    with a settle delay after each edge. *)
Definition nibble_events (l : I2CLCD) (value : Z) : list Event :=
  [ wr l value;
    wr l (Z.lor value 0x04); EvSleep 1;
    wr l (Z.land value (not8 0x04)); EvSleep 1 ].

(** What [send value mode] does from session [l]. *)
Definition send_events (l : I2CLCD) (value mode : Z) : list Event :=
  nibble_events l (Z.lor (Z.land value 0xF0) mode)
  ++ nibble_events l (Z.lor (Z.land (uint8 (Z.shiftl value 4)) 0xF0) mode).

(** The six bytes [send value mode] puts on the bus when the backlight line
    is [bl]. *)
Definition send_bytes (bl value mode : Z) : list Z :=
  let hi := Z.lor (Z.land value 0xF0) mode in
  let lo := Z.lor (Z.land (Z.shiftl value 4) 0xF0) mode in
  [ Z.lor hi bl; Z.lor (Z.lor hi 0x04) bl; Z.lor hi bl;
    Z.lor lo bl; Z.lor (Z.lor lo 0x04) bl; Z.lor lo bl ].

(** The four bytes of a byte transfer made of two enable pulses only:
    high nibble with enable high, then low, low nibble with enable high,
    then low. *)
Definition four_writes (bl value mode : Z) : list Z :=
  let hi := Z.lor (Z.land value 0xF0) mode in
  let lo := Z.lor (Z.land (Z.shiftl value 4) 0xF0) mode in
  [ Z.lor (Z.lor hi 0x04) bl; Z.lor hi bl;
    Z.lor (Z.lor lo 0x04) bl; Z.lor lo bl ].

(** ** The controller's side of the expander

    The expander's lines: bit 0 is register-select, bit 2 is enable, bit 3
    is the backlight, bits 4 to 7 are the data lines D4 to D7.  The
    controller latches the data lines and register-select on the falling
    edge of enable. *)
Fixpoint strobes (high : option Z) (bs : list Z) : list (bool * Z) :=
  match bs with
  | [] => []
  | b :: bs' =>
    if Z.testbit b 2 then strobes (Some b) bs'
    else
      match high with
      | Some h => (Z.testbit h 0, Z.shiftr h 4) :: strobes None bs'
      | None => strobes None bs'
      end
  end.

(** The level of the controller's latch after the bytes [bs]. *)
Fixpoint strobe_state (high : option Z) (bs : list Z) : option Z :=
  match bs with
  | [] => high
  | b :: bs' =>
    if Z.testbit b 2 then strobe_state (Some b) bs' else strobe_state None bs'
  end.

(** In 4-bit mode two successive nibbles, high one first, make one byte. *)
Fixpoint pair_up (ns : list (bool * Z)) : list (bool * Z) :=
  match ns with
  | (rs, hi) :: (_, lo) :: ns' => (rs, Z.lor (Z.shiftl hi 4) lo) :: pair_up ns'
  | _ => []
  end.

(** The nibbles, and in 4-bit mode the bytes (with register-select: [false]
    for a command, [true] for data), that reach the controller. *)
Definition nibbles (evs : list Event) : list (bool * Z) :=
  strobes None (tx_bytes evs).
Definition received (evs : list Event) : list (bool * Z) :=
  pair_up (nibbles evs).

(** The delays of a trace are settle delays only: each is 1 ms long and
    directly follows an expander write that changed the enable line.
    [en] is the level of the enable line, [edge] whether the event before was
    such a write. *)
Fixpoint settle_only (en edge : bool) (evs : list Event) : bool :=
  match evs with
  | [] => true
  | EvTx _ w :: evs' =>
    let en' := match w with [b] => Z.testbit b 2 | _ => en end in
    settle_only en' (xorb en en') evs'
  | EvSleep ms :: evs' => edge && (ms =? 1) && settle_only en false evs'
  end.

(** Every byte of [bs] has the backlight line (bit 3) at level [b]. *)
Definition all_backlight (b : bool) (bs : list Z) : Prop :=
  Forall (fun x => Z.testbit x 3 = b) bs.

(** A byte value. *)
Definition is_byte (v : Z) : Prop := 0 <= v < 256.

(** A mode bit: 0 for a command, 1 for data. *)
Definition is_mode (m : Z) : Prop := m = 0 \/ m = 1.

(** ** What each public operation does

    The outcome, the session afterwards and the events of every exported
    method, as functions of its arguments and of the session before. *)

(** The row [SetCursor] addresses. *)
Definition clamp_row (l : I2CLCD) (row : Z) : Z :=
  if rows l <=? row then uint8 (rows l - 1) else row.

(** The address byte [SetCursor] computes. *)
Definition ddram_addr (l : I2CLCD) (col row : Z) : Z :=
  uint8 (col + clamp_row l row * 0x40).

(** The address byte [CreateChar] computes. *)
Definition cgram_addr (location : Z) : Z := Z.shiftl (Z.land location 0x07) 3.

(** The function-set command of [Init]. *)
Definition function_set (l : I2CLCD) : Z := if 1 <? rows l then 0x28 else 0x20.

Definition data_events (l : I2CLCD) (bs : list Z) : list Event :=
  flat_map (fun b => send_events l b 1) bs.

Definition init_events (l : I2CLCD) : list Event :=
  [EvSleep 50]
  ++ send_events l 0x03 0 ++ [EvSleep 5]
  ++ send_events l 0x03 0 ++ [EvSleep 5]
  ++ send_events l 0x03 0 ++ [EvSleep 1]
  ++ send_events l 0x02 0
  ++ send_events l (function_set l) 0
  ++ send_events l 0x0C 0
  ++ send_events l 0x06 0
  ++ send_events l 0x01 0 ++ [EvSleep 2]
  ++ [wr (set_backlight true l) 0x00].

Definition op_events (o : Op) (l : I2CLCD) : list Event :=
  match o with
  | OpInit => init_events l
  | OpClear => send_events l 0x01 0 ++ [EvSleep 2]
  | OpHome => send_events l 0x02 0 ++ [EvSleep 2]
  | OpPrint text => data_events l (map byte_of_rune (Utf8.range text))
  | OpSetCursor col row => send_events l (Z.lor 0x80 (ddram_addr l col row)) 0
  | OpDisplayOn => send_events l 0x0C 0
  | OpDisplayOff => send_events l 0x08 0
  | OpCursorOn => send_events l 0x0E 0
  | OpCursorOff => send_events l 0x0C 0
  | OpBlinkOn => send_events l 0x0D 0
  | OpBlinkOff => send_events l 0x0C 0
  | OpBacklight => [wr (set_backlight true l) 0x00]
  | OpNoBacklight => [wr (set_backlight false l) 0x00]
  | OpCreateChar location charmap =>
    send_events l (Z.lor 0x40 (cgram_addr location)) 0
    ++ data_events l (firstn 8 charmap)
  | OpScrollDisplayLeft => send_events l 0x18 0
  | OpScrollDisplayRight => send_events l 0x1C 0
  | OpLeftToRight => send_events l 0x06 0
  | OpRightToLeft => send_events l 0x04 0
  | OpShiftIncrement => send_events l 0x05 0
  | OpShiftDecrement => send_events l 0x04 0
  | OpAutoscroll => send_events l 0x05 0
  | OpNoAutoscroll => send_events l 0x04 0
  end.

Definition op_session (o : Op) (l : I2CLCD) : I2CLCD :=
  match o with
  | OpInit | OpBacklight => set_backlight true l
  | OpNoBacklight => set_backlight false l
  | OpDisplayOn => set_display true l
  | OpDisplayOff => set_display false l
  | OpCursorOn => set_cursor true l
  | OpCursorOff => set_cursor false l
  | OpBlinkOn => set_blink true l
  | OpBlinkOff => set_blink false l
  | _ => l
  end.

Definition op_outcome (o : Op) : Res unit :=
  match o with
  | OpCreateChar _ charmap =>
    if (8 <=? length charmap)%nat then Ret tt
    else Panicked (IndexOutOfRange (length charmap) (length charmap))
  | _ => Ret tt
  end.

(** A session to run examples on: 16x2 display at address 0x27. *)
Definition lcd0 : I2CLCD := NewI2CLCD 0x27 16 2.

(** The bytes 0 to 255. *)
Definition all_bytes : list Z := map Z.of_nat (seq 0 256).

(** ** Scripts *)

Fixpoint script_outcome (os : list Op) : Res unit :=
  match os with
  | [] => Ret tt
  | o :: os' =>
    match op_outcome o with
    | Ret _ => script_outcome os'
    | Panicked p => Panicked p
    end
  end.

Fixpoint script_session (os : list Op) (l : I2CLCD) : I2CLCD :=
  match os with
  | [] => l
  | o :: os' =>
    match op_outcome o with
    | Ret _ => script_session os' (op_session o l)
    | Panicked _ => op_session o l
    end
  end.

Fixpoint script_events (os : list Op) (l : I2CLCD) : list Event :=
  match os with
  | [] => []
  | o :: os' =>
    op_events o l
    ++ match op_outcome o with
       | Ret _ => script_events os' (op_session o l)
       | Panicked _ => []
       end
  end.

(** ** Transport errors, as the specification words them

    A transport error that surfaces to the caller of a public operation
    changes what the caller holds when the call is over: a call during which
    a transaction failed would be told apart from the same call on a healthy
    bus. *)
Definition surfaces_transport_errors (o : Op) : Prop :=
  forall l wd,
    failures (exec o) l wd <> [] ->
    caller_view (exec o) l wd <> caller_view (exec o) l healthy.

(** ** Initialization, as the specification words it

    The three reset steps and the switch to 4-bit mode each as one nibble
    transfer of the high nibble only. *)
Definition reset_nibble (n : Z) : M unit := write4Bits (uint8 (Z.shiftl n 4)).

Definition Init_single_nibbles : M unit :=
  Sleep 50 ;;
  reset_nibble 0x03 ;;
  Sleep 5 ;;
  reset_nibble 0x03 ;;
  Sleep 5 ;;
  reset_nibble 0x03 ;;
  Sleep 1 ;;
  reset_nibble 0x02 ;;
  l <- this ;;
  sendCommand (if 1 <? rows l then 0x28 else 0x20) ;;
  sendCommand 0x0C ;;
  sendCommand 0x06 ;;
  sendCommand 0x01 ;;
  Sleep 2 ;;
  Backlight.

(** The operations that assign the session's backlight flag; each does so
    right before its last expander write. *)
Definition assigns_backlight (o : Op) : bool :=
  match o with
  | OpInit | OpBacklight | OpNoBacklight => true
  | _ => false
  end.

(** The operations after which the controller needs more than the settle
    delays of the enable pulses. *)
Definition has_long_delay (o : Op) : bool :=
  match o with
  | OpInit | OpClear | OpHome => true
  | _ => false
  end.

(** ** UTF-8 text

    The encoding of one Unicode scalar value, to state what ranging over
    well-formed text yields. *)
Definition utf8_encode (c : Z) : list Z :=
  if c <? 0x80 then [c]
  else if c <? 0x800 then
    [Z.lor 0xC0 (Z.shiftr c 6); Z.lor 0x80 (Z.land c 0x3F)]
  else if c <? 0x10000 then
    [Z.lor 0xE0 (Z.shiftr c 12); Z.lor 0x80 (Z.land (Z.shiftr c 6) 0x3F);
     Z.lor 0x80 (Z.land c 0x3F)]
  else
    [Z.lor 0xF0 (Z.shiftr c 18); Z.lor 0x80 (Z.land (Z.shiftr c 12) 0x3F);
     Z.lor 0x80 (Z.land (Z.shiftr c 6) 0x3F); Z.lor 0x80 (Z.land c 0x3F)].

(** Unicode scalar values: the code points that are not surrogates. *)
Definition scalar (c : Z) : bool :=
  ((0 <=? c) && (c <? 0xD800)) || ((0xE000 <=? c) && (c <=? 0x10FFFF)).

(** The encoding of [c] passes every test of the decoder and decodes to
    [c]. *)
Definition decodes_back (c : Z) : bool :=
  match utf8_encode c with
  | [b0] => (b0 <? 0x80) && (b0 =? c)
  | [b0; b1] =>
    negb (b0 <? 0x80)
    && match Utf8.lead b0 with
       | Some (2%nat, (lo, hi)) => Utf8.between lo hi b1
       | _ => false
       end
    && (Z.lor (Z.shiftl (Z.land b0 0x1F) 6) (Utf8.low6 b1) =? c)
  | [b0; b1; b2] =>
    negb (b0 <? 0x80)
    && match Utf8.lead b0 with
       | Some (3%nat, (lo, hi)) => Utf8.between lo hi b1
       | _ => false
       end
    && Utf8.cont b2
    && (Z.lor (Z.lor (Z.shiftl (Z.land b0 0x0F) 12)
                     (Z.shiftl (Utf8.low6 b1) 6)) (Utf8.low6 b2) =? c)
  | [b0; b1; b2; b3] =>
    negb (b0 <? 0x80)
    && match Utf8.lead b0 with
       | Some (4%nat, (lo, hi)) => Utf8.between lo hi b1
       | _ => false
       end
    && Utf8.cont b2 && Utf8.cont b3
    && (Z.lor (Z.lor (Z.lor (Z.shiftl (Z.land b0 0x07) 18)
                            (Z.shiftl (Utf8.low6 b1) 12))
                     (Z.shiftl (Utf8.low6 b2) 6)) (Utf8.low6 b3) =? c)
  | _ => false
  end.

(** A byte value, as a test. *)
Definition byteb (b : Z) : bool := (0 <=? b) && (b <? 256).

(** [f] holds of [c], [c + 1], ..., [c + n - 1]. *)
Fixpoint upto (n : nat) (c : Z) (f : Z -> bool) : bool :=
  match n with
  | O => true
  | S n' => f c && upto n' (c + 1) f
  end.

(** The string with the given bytes. *)
Fixpoint string_of_bytes (bs : list Z) : string :=
  match bs with
  | [] => EmptyString
  | b :: bs' => String (ascii_of_nat (Z.to_nat b)) (string_of_bytes bs')
  end.

(** ** Further observations of a trace *)

(** The sum of the delays, in milliseconds. *)
Definition total_delay (evs : list Event) : Z := fold_right Z.add 0 (sleeps evs).

(** A transaction of exactly one byte to the device at [a]; a delay that is
    positive. *)
Definition one_byte_to (a : Z) (e : Event) : Prop :=
  match e with
  | EvTx a' w => a' = a /\ length w = 1%nat
  | EvSleep ms => 0 < ms
  end.

(** The trace leaves the enable line low and hands the controller an even
    number of nibbles: in 4-bit mode the next byte starts on a high
    nibble. *)
Definition aligned (evs : list Event) : Prop :=
  strobe_state None (tx_bytes evs) = None
  /\ Nat.even (length (nibbles evs)) = true.

(** The controller receives the command byte [c]. *)
Definition receives_command (c : Z) (evs : list Event) : bool :=
  existsb (fun p => negb (fst p) && (snd p =? c)) (received evs).

(** The bytes on the bus around every enable pulse: the byte written right
    before the enable line rises and the byte written when it falls are the
    byte of the pulse with the enable bit cleared, and the line ends low.
    [prev] is the byte written last. *)
Fixpoint stable_from (prev : Z) (bs : list Z) : bool :=
  match bs with
  | [] => negb (Z.testbit prev 2)
  | b :: bs' =>
    (if Z.testbit b 2 then prev =? Z.land b 0xFB
     else if Z.testbit prev 2 then b =? Z.land prev 0xFB
     else true)
    && stable_from b bs'
  end.

Definition stable_pulses (bs : list Z) : bool := stable_from 0 bs.

(** What reaches the controller from each public operation, read in 4-bit
    mode: commands with register-select low, data with it high. *)
Definition op_received (o : Op) (l : I2CLCD) : list (bool * Z) :=
  match o with
  | OpInit =>
    [ (false, 0x03); (false, 0x03); (false, 0x03); (false, 0x02);
      (false, function_set l); (false, 0x0C); (false, 0x06); (false, 0x01) ]
  | OpClear => [(false, 0x01)]
  | OpHome => [(false, 0x02)]
  | OpPrint text => map (fun char => (true, char mod 256)) (Utf8.range text)
  | OpSetCursor col row => [(false, Z.lor 0x80 (ddram_addr l col row))]
  | OpDisplayOn => [(false, 0x0C)]
  | OpDisplayOff => [(false, 0x08)]
  | OpCursorOn => [(false, 0x0E)]
  | OpCursorOff => [(false, 0x0C)]
  | OpBlinkOn => [(false, 0x0D)]
  | OpBlinkOff => [(false, 0x0C)]
  | OpBacklight => []
  | OpNoBacklight => []
  | OpCreateChar location charmap =>
    (false, Z.lor 0x40 (cgram_addr location))
    :: map (fun b => (true, b mod 256)) (firstn 8 charmap)
  | OpScrollDisplayLeft => [(false, 0x18)]
  | OpScrollDisplayRight => [(false, 0x1C)]
  | OpLeftToRight => [(false, 0x06)]
  | OpRightToLeft => [(false, 0x04)]
  | OpShiftIncrement => [(false, 0x05)]
  | OpShiftDecrement => [(false, 0x04)]
  | OpAutoscroll => [(false, 0x05)]
  | OpNoAutoscroll => [(false, 0x04)]
  end.

(** The session [l] with other values in the fields [cols], [display],
    [cursor] and [blink]. *)
Definition with_flags (l : I2CLCD) (c : Z) (d cu b : bool) : I2CLCD :=
  mkI2CLCD (addr l) c (rows l) (backlight l) d cu b.

(** Text made of ASCII bytes only. *)
Definition ascii_text (text : string) : bool :=
  forallb (fun b => b <? 0x80) (Utf8.bytes text).

(** Bytes that can follow any bytes ending with the enable line low and
    keep [stable_from] going, ending with the line low again. *)
Definition well_pulsed (bs : list Z) : Prop :=
  forall p rest,
    Z.testbit p 2 = false ->
    exists q, Z.testbit q 2 = false
              /\ stable_from p (bs ++ rest) = stable_from q rest.

(** Every expander write that changes the enable line is directly followed
    by a delay of at least 1 ms.  [en] is the level of the line. *)
Fixpoint edges_settled (en : bool) (evs : list Event) : bool :=
  match evs with
  | [] => true
  | EvTx _ w :: evs' =>
    let en' := match w with [b] => Z.testbit b 2 | _ => en end in
    (if xorb en en'
     then match evs' with EvSleep ms :: _ => 1 <=? ms | _ => false end
     else true)
    && edges_settled en' evs'
  | EvSleep _ :: evs' => edges_settled en evs'
  end.

(** Events that start and end with the enable line low and settle each of
    their edges. *)
Definition settled (evs : list Event) : Prop :=
  forall rest, edges_settled false (evs ++ rest) = edges_settled false rest.

(** The delay an operation makes on top of the settle delays of its enable
    pulses, in milliseconds. *)
Definition long_delay (o : Op) : Z :=
  match o with
  | OpInit => 50 + 5 + 5 + 1 + 2
  | OpClear | OpHome => 2
  | _ => 0
  end.

(** ** The code points of a string

    What ranging over a string is to yield, stated with the encoder and
    without the decoder: the bytes are read from the left; where they start
    with the UTF-8 encoding of a scalar value, that value is the next code
    point and the reading goes on after its encoding; where no encoding of a
    scalar value starts, the next code point is U+FFFD and the reading goes
    on one byte further. *)
Inductive code_points : list Z -> list Z -> Prop :=
| cp_end : code_points [] []
| cp_scalar (c : Z) (rest cps : list Z) :
    scalar c = true ->
    code_points rest cps ->
    code_points (utf8_encode c ++ rest) (c :: cps)
| cp_invalid (b : Z) (rest cps : list Z) :
    (forall c t, scalar c = true -> utf8_encode c ++ t <> b :: rest) ->
    code_points rest cps ->
    code_points (b :: rest) (0xFFFD :: cps).

Fixpoint zlist_eqb (xs ys : list Z) : bool :=
  match xs, ys with
  | [], [] => true
  | x :: xs', y :: ys' => (x =? y) && zlist_eqb xs' ys'
  | _, _ => false
  end.

(** [c] is a scalar value and [bs] is its encoding. *)
Definition encodes (c : Z) (bs : list Z) : bool :=
  scalar c && zlist_eqb (utf8_encode c) bs.

(** What the decoder accepts as a lead byte: the announced width and the
    ranges behind it. *)
Definition lead_ok (b0 : Z) : bool :=
  match Utf8.lead b0 with
  | None => true
  | Some (sz, (lo, hi)) =>
    (0x80 <=? lo) && (hi <=? 0xBF)
    && match sz with
       | 2%nat => Utf8.between 0xC2 0xDF b0
       | 3%nat => Utf8.between 0xE0 0xEF b0
       | 4%nat => Utf8.between 0xF0 0xF4 b0
       | _ => false
       end
  end.

(** Bytes the decoder accepts as an encoding of width 2, 3 or 4 are the
    encoding of the scalar value it yields. *)
Definition accepted2 (b0 b1 : Z) : bool :=
  match Utf8.lead b0 with
  | Some (sz, (lo, hi)) =>
    negb (Nat.eqb sz 2) || negb (Utf8.between lo hi b1)
    || encodes (Z.lor (Z.shiftl (Z.land b0 0x1F) 6) (Utf8.low6 b1)) [b0; b1]
  | None => true
  end.

Definition accepted3 (b0 b1 b2 : Z) : bool :=
  match Utf8.lead b0 with
  | Some (sz, (lo, hi)) =>
    negb (Nat.eqb sz 3) || negb (Utf8.between lo hi b1) || negb (Utf8.cont b2)
    || encodes (Z.lor (Z.lor (Z.shiftl (Z.land b0 0x0F) 12)
                             (Z.shiftl (Utf8.low6 b1) 6)) (Utf8.low6 b2))
               [b0; b1; b2]
  | None => true
  end.

(** The value of the first three bytes of an encoding of width 4. *)
Definition head4 (b0 b1 b2 : Z) : Z :=
  Z.lor (Z.lor (Z.shiftl (Z.land b0 0x07) 12) (Z.shiftl (Utf8.low6 b1) 6))
        (Utf8.low6 b2).

Definition accepted4 (b0 b1 b2 : Z) : bool :=
  match Utf8.lead b0 with
  | Some (sz, (lo, hi)) =>
    negb (Nat.eqb sz 4) || negb (Utf8.between lo hi b1) || negb (Utf8.cont b2)
    || ((0x400 <=? head4 b0 b1 b2) && (head4 b0 b1 b2 <=? 0x43FF)
        && (Z.lor 0xF0 (Z.shiftr (head4 b0 b1 b2) 12) =? b0)
        && (Z.lor 0x80 (Z.land (Z.shiftr (head4 b0 b1 b2) 6) 0x3F) =? b1)
        && (Z.lor 0x80 (Z.land (head4 b0 b1 b2) 0x3F) =? b2))
  | None => true
  end.

(** A continuation byte carries its low six bits. *)
Definition carries_low6 (b : Z) : bool :=
  (0 <=? Utf8.low6 b) && (Utf8.low6 b <? 64)
  && (Z.lor 0x80 (Utf8.low6 b) =? b).

(* ================================================================= *)
(** * Properties *)

(** ** Events and worlds *)

Lemma commit_app (e1 e2 : list Event) (wd : World) :
  commit (e1 ++ e2) wd = commit e2 (commit e1 wd).
Proof. unfold commit. apply fold_left_app. Qed.

Lemma commit1_trace (wd : World) (e : Event) :
  trace (commit1 wd e) = trace wd ++ [e].
Proof. destruct e; reflexivity. Qed.

Lemma commit_trace (evs : list Event) (wd : World) :
  trace (commit evs wd) = trace wd ++ evs.
Proof.
  revert wd. induction evs as [|e evs IH]; intros wd; simpl.
  - now rewrite app_nil_r.
  - unfold commit in IH. rewrite IH, commit1_trace, <- app_assoc. reflexivity.
Qed.

Lemma commit1_faulty (wd : World) (e : Event) :
  faulty (commit1 wd e) = faulty wd.
Proof. destruct e; reflexivity. Qed.

Lemma commit_faulty (evs : list Event) (wd : World) :
  faulty (commit evs wd) = faulty wd.
Proof.
  revert wd. induction evs as [|e evs IH]; intros wd; simpl; [reflexivity|].
  unfold commit in IH. now rewrite IH, commit1_faulty.
Qed.

Lemma skipn_length_app {A} (xs ys : list A) : skipn (length xs) (xs ++ ys) = ys.
Proof. induction xs; simpl; auto. Qed.

(** ** The calculus of [yields] *)

Lemma yields_ret {A} (a : A) (l : I2CLCD) : yields (ret a) l (Ret a) l [].
Proof. intros wd. reflexivity. Qed.

Lemma yields_panic {A} (p : GoPanic) (l : I2CLCD) :
  yields (@panic A p) l (Panicked p) l [].
Proof. intros wd. reflexivity. Qed.

Lemma yields_bind {A B} (m : M A) (k : A -> M B) l a l1 e1 r l2 e2 :
  yields m l (Ret a) l1 e1 ->
  yields (k a) l1 r l2 e2 ->
  yields (bind m k) l r l2 (e1 ++ e2).
Proof.
  intros Hm Hk wd. unfold bind. rewrite Hm, Hk, commit_app. reflexivity.
Qed.

Lemma yields_bind_panic {A B} (m : M A) (k : A -> M B) l p l1 e1 :
  yields m l (Panicked p) l1 e1 ->
  yields (bind m k) l (Panicked p) l1 e1.
Proof. intros Hm wd. unfold bind. rewrite Hm. reflexivity. Qed.

Lemma yields_this (l : I2CLCD) : yields this l (Ret l) l [].
Proof. intros wd. reflexivity. Qed.

Lemma yields_update (f : I2CLCD -> I2CLCD) (l : I2CLCD) :
  yields (update f) l (Ret tt) (f l) [].
Proof. intros wd. reflexivity. Qed.

Lemma yields_Sleep (ms : Z) (l : I2CLCD) :
  yields (Sleep ms) l (Ret tt) l [EvSleep ms].
Proof. intros wd. reflexivity. Qed.

(** Whatever the bus answers, [expanderWrite] returns normally after its
    one transaction. *)
Lemma yields_expanderWrite (data : Z) (l : I2CLCD) :
  yields (expanderWrite data) l (Ret tt) l [wr l data].
Proof. intros wd. reflexivity. Qed.

Lemma yields_eq {A} (m : M A) l r l' evs evs' :
  yields m l r l' evs -> evs = evs' -> yields m l r l' evs'.
Proof. intros H <-. exact H. Qed.

Lemma yields_pulseEnable (data : Z) (l : I2CLCD) :
  yields (pulseEnable data) l (Ret tt) l
    [wr l (Z.lor data 0x04); EvSleep 1; wr l (Z.land data (not8 0x04)); EvSleep 1].
Proof.
  unfold pulseEnable.
  eapply yields_eq.
  - eapply yields_bind; [apply yields_expanderWrite|].
    eapply yields_bind; [apply yields_Sleep|].
    eapply yields_bind; [apply yields_expanderWrite|].
    apply yields_Sleep.
  - reflexivity.
Qed.

Lemma yields_write4Bits (value : Z) (l : I2CLCD) :
  yields (write4Bits value) l (Ret tt) l (nibble_events l value).
Proof.
  unfold write4Bits.
  eapply yields_eq.
  - eapply yields_bind; [apply yields_expanderWrite|apply yields_pulseEnable].
  - reflexivity.
Qed.

Lemma yields_send (value mode : Z) (l : I2CLCD) :
  yields (send value mode) l (Ret tt) l (send_events l value mode).
Proof.
  unfold send, send_events.
  eapply yields_bind; apply yields_write4Bits.
Qed.

Lemma yields_sendCommand (cmd : Z) (l : I2CLCD) :
  yields (sendCommand cmd) l (Ret tt) l (send_events l cmd 0).
Proof. unfold sendCommand. exact (yields_send cmd 0 l). Qed.

Lemma yields_sendData (data : Z) (l : I2CLCD) :
  yields (sendData data) l (Ret tt) l (send_events l data 1).
Proof. unfold sendData. exact (yields_send data 1 l). Qed.

(** Reading a run off a [yields] fact. *)
Lemma yields_outcome {A} (m : M A) l r l' evs wd :
  yields m l r l' evs -> outcome m l wd = r.
Proof. intros H. unfold outcome. now rewrite H. Qed.

Lemma yields_session {A} (m : M A) l r l' evs wd :
  yields m l r l' evs -> session_after m l wd = l'.
Proof. intros H. unfold session_after. now rewrite H. Qed.

Lemma yields_trace {A} (m : M A) l r l' evs wd :
  yields m l r l' evs -> trace (world_after m l wd) = trace wd ++ evs.
Proof. intros H. unfold world_after. rewrite H. simpl. apply commit_trace. Qed.

Lemma yields_events {A} (m : M A) l r l' evs wd :
  yields m l r l' evs -> events m l wd = evs.
Proof.
  intros H. unfold events. rewrite (yields_trace _ _ _ _ _ wd H).
  apply skipn_length_app.
Qed.

Lemma events_sendCommand (cmd : Z) (l : I2CLCD) (wd : World) :
  events (sendCommand cmd) l wd = send_events l cmd 0.
Proof. exact (yields_events _ _ _ _ _ wd (yields_sendCommand cmd l)). Qed.

Lemma events_sendData (data : Z) (l : I2CLCD) (wd : World) :
  events (sendData data) l wd = send_events l data 1.
Proof. exact (yields_events _ _ _ _ _ wd (yields_sendData data l)). Qed.

Lemma yields_for_each_sendData (bs : list Z) (l : I2CLCD) :
  yields (for_each bs sendData) l (Ret tt) l (data_events l bs).
Proof.
  induction bs as [|b bs IH]; cbn [for_each].
  - apply yields_ret.
  - unfold data_events. cbn [flat_map].
    eapply yields_bind; [apply yields_sendData|exact IH].
Qed.

Lemma events_for_each_sendData (bs : list Z) (l : I2CLCD) (wd : World) :
  events (for_each bs sendData) l wd = data_events l bs.
Proof. exact (yields_events _ _ _ _ _ wd (yields_for_each_sendData bs l)). Qed.

(** ** Every public operation *)

Ltac yield :=
  lazymatch goal with
  | |- yields (bind _ _) _ _ _ _ =>
    eapply yields_bind; [yield | cbv beta zeta; yield]
  | |- yields (ret _) _ _ _ _ => apply yields_ret
  | |- yields this _ _ _ _ => apply yields_this
  | |- yields (update _) _ _ _ _ => apply yields_update
  | |- yields (Sleep _) _ _ _ _ => apply yields_Sleep
  | |- yields (expanderWrite _) _ _ _ _ => apply yields_expanderWrite
  | |- yields (sendCommand _) _ _ _ _ => apply yields_sendCommand
  | |- yields (sendData _) _ _ _ _ => apply yields_sendData
  end.

Ltac yield_as := eapply yields_eq; [yield|].

Lemma uint8_small (x : Z) : 0 <= x < 256 -> uint8 x = x.
Proof. intros H. unfold uint8. now apply Z.mod_small. Qed.

Lemma land7_range (x : Z) : 0 <= Z.land x 0x07 <= 7.
Proof.
  pose proof (Z.land_ones x 3 ltac:(lia)) as E.
  change (Z.ones 3) with 7 in E. change (2 ^ 3) with 8 in E. rewrite E.
  pose proof (Z.mod_pos_bound x 8 ltac:(lia)). lia.
Qed.

Lemma cgram_addr_uint8 (location : Z) :
  uint8 (Z.shiftl (Z.land location 0x07) 3) = cgram_addr location.
Proof.
  unfold cgram_addr. apply uint8_small.
  rewrite Z.shiftl_mul_pow2 by lia.
  pose proof (land7_range location). lia.
Qed.

Lemma ddram_addr_uint8 (l : I2CLCD) (col row : Z) :
  uint8 (col + uint8 (clamp_row l row * 0x40)) = ddram_addr l col row.
Proof. unfold ddram_addr, uint8. apply Z.add_mod_idemp_r. lia. Qed.

Lemma yields_Backlight (l : I2CLCD) :
  yields Backlight l (Ret tt) (set_backlight true l)
    [wr (set_backlight true l) 0x00].
Proof. unfold Backlight. yield_as. reflexivity. Qed.

Lemma yields_NoBacklight (l : I2CLCD) :
  yields NoBacklight l (Ret tt) (set_backlight false l)
    [wr (set_backlight false l) 0x00].
Proof. unfold NoBacklight. yield_as. reflexivity. Qed.

Lemma yields_Init (l : I2CLCD) :
  yields Init l (Ret tt) (set_backlight true l) (init_events l).
Proof.
  unfold Init.
  eapply yields_eq.
  - do 8 (eapply yields_bind; [yield|]).
    eapply yields_bind; [apply yields_this|]. cbv beta zeta.
    do 5 (eapply yields_bind; [yield|]).
    apply yields_Backlight.
  - unfold init_events, function_set. simpl app.
    destruct (1 <? rows l); reflexivity.
Qed.

Lemma yields_Clear (l : I2CLCD) :
  yields Clear l (Ret tt) l (send_events l 0x01 0 ++ [EvSleep 2]).
Proof. unfold Clear. yield. Qed.

Lemma yields_Home (l : I2CLCD) :
  yields Home l (Ret tt) l (send_events l 0x02 0 ++ [EvSleep 2]).
Proof. unfold Home. yield. Qed.

Lemma yields_for_each_send (l : I2CLCD) (rs : list Z) :
  yields (for_each rs (fun char => sendData (byte_of_rune char))) l (Ret tt) l
    (data_events l (map byte_of_rune rs)).
Proof.
  induction rs as [|r rs IH]; cbn [for_each map].
  - apply yields_ret.
  - unfold data_events. cbn [flat_map].
    eapply yields_bind; [apply yields_sendData|exact IH].
Qed.

Lemma yields_Print (text : string) (l : I2CLCD) :
  yields (Print text) l (Ret tt) l
    (data_events l (map byte_of_rune (Utf8.range text))).
Proof. unfold Print. apply yields_for_each_send. Qed.

Lemma yields_SetCursor (col row : Z) (l : I2CLCD) :
  yields (SetCursor col row) l (Ret tt) l
    (send_events l (Z.lor 0x80 (ddram_addr l col row)) 0).
Proof.
  unfold SetCursor. yield_as. simpl app.
  fold (clamp_row l row). rewrite ddram_addr_uint8. reflexivity.
Qed.

Lemma skipn_nth_error {A} (xs : list A) (i : nat) (x : A) :
  nth_error xs i = Some x -> skipn i xs = x :: skipn (S i) xs.
Proof.
  revert i. induction xs as [|y ys IH]; intros [|i] H; try discriminate.
  - now inversion H.
  - simpl in H. apply IH in H. exact H.
Qed.

(** The loop of [CreateChar]: it stops with a panic at the first index the
    slice does not have. *)
Lemma yields_glyph_loop (l : I2CLCD) (charmap : list Z) (n from : nat) :
  (from <= length charmap)%nat ->
  yields (for_count n from (fun i => b <- index charmap i ;; sendData b)) l
    (if (from + n <=? length charmap)%nat then Ret tt
     else Panicked (IndexOutOfRange (length charmap) (length charmap)))
    l (data_events l (firstn n (skipn from charmap))).
Proof.
  revert from. induction n as [|n IH]; intros from Hfrom; cbn [for_count].
  - rewrite Nat.add_0_r. apply Nat.leb_le in Hfrom. rewrite Hfrom.
    apply yields_ret.
  - unfold index. destruct (nth_error charmap from) as [x|] eqn:E.
    + assert (from < length charmap)%nat as Hlt
        by (apply nth_error_Some; congruence).
      rewrite (skipn_nth_error _ _ _ E). cbn [firstn].
      replace (from + S n)%nat with (S from + n)%nat by lia.
      unfold data_events. cbn [flat_map].
      eapply yields_bind.
      * eapply yields_eq.
        -- eapply yields_bind; [apply yields_ret|apply yields_sendData].
        -- reflexivity.
      * apply IH. lia.
    + apply nth_error_None in E.
      assert (from = length charmap) as -> by lia.
      rewrite skipn_all. cbn [firstn].
      destruct (Nat.leb_spec (length charmap + S n) (length charmap)); [lia|].
      apply yields_bind_panic. apply yields_bind_panic. apply yields_panic.
Qed.

Lemma yields_CreateChar (location : Z) (charmap : list Z) (l : I2CLCD) :
  yields (CreateChar location charmap) l
    (op_outcome (OpCreateChar location charmap)) l
    (send_events l (Z.lor 0x40 (cgram_addr location)) 0
     ++ data_events l (firstn 8 charmap)).
Proof.
  unfold CreateChar. cbv zeta. rewrite cgram_addr_uint8.
  eapply yields_bind; [apply yields_sendCommand|].
  apply (yields_glyph_loop l charmap 8 0). lia.
Qed.

Ltac flag_op := yield_as; reflexivity.

(** What every exported method does, whatever the bus answers. *)
Lemma yields_exec (o : Op) (l : I2CLCD) :
  yields (exec o) l (op_outcome o) (op_session o l) (op_events o l).
Proof.
  destruct o; cbn [exec op_outcome op_session op_events].
  - apply yields_Init.
  - apply yields_Clear.
  - apply yields_Home.
  - apply yields_Print.
  - apply yields_SetCursor.
  - unfold DisplayOn. flag_op.
  - unfold DisplayOff. flag_op.
  - unfold CursorOn. flag_op.
  - unfold CursorOff. flag_op.
  - unfold BlinkOn. flag_op.
  - unfold BlinkOff. flag_op.
  - apply yields_Backlight.
  - apply yields_NoBacklight.
  - apply yields_CreateChar.
  - unfold ScrollDisplayLeft. flag_op.
  - unfold ScrollDisplayRight. flag_op.
  - unfold LeftToRight. flag_op.
  - unfold RightToLeft. flag_op.
  - unfold ShiftIncrement. flag_op.
  - unfold ShiftDecrement. flag_op.
  - unfold Autoscroll. flag_op.
  - unfold NoAutoscroll. flag_op.
Qed.

(** ** Bytes and bits *)

Lemma byte_cases (P : Z -> bool) :
  forallb P all_bytes = true -> forall v, is_byte v -> P v = true.
Proof.
  intros H v Hv. rewrite forallb_forall in H. apply H.
  unfold all_bytes. apply in_map_iff. exists (Z.to_nat v).
  unfold is_byte in Hv. split; [lia|]. apply in_seq. lia.
Qed.

Lemma not8_4 : not8 0x04 = 0xFB.
Proof. reflexivity. Qed.

Lemma land_uint8_F0 (x : Z) : Z.land (uint8 x) 0xF0 = Z.land x 0xF0.
Proof.
  unfold uint8. pose proof (Z.land_ones x 8 ltac:(lia)) as E.
  change (2 ^ 8) with 256 in E. rewrite <- E, <- Z.land_assoc. reflexivity.
Qed.

Lemma land_mode_FB (m : Z) : is_mode m -> Z.land m 0xFB = m.
Proof. intros [-> | ->]; reflexivity. Qed.

(** Clearing the enable bit of a nibble with its mode bit changes nothing. *)
Lemma nibble_enable_clear (a m : Z) :
  is_mode m ->
  Z.land (Z.lor (Z.land a 0xF0) m) (not8 0x04) = Z.lor (Z.land a 0xF0) m.
Proof.
  intros Hm. rewrite not8_4, Z.land_lor_distr_l, (land_mode_FB m Hm).
  rewrite <- Z.land_assoc. reflexivity.
Qed.

Lemma is_byte_uint8 (x : Z) : is_byte (uint8 x).
Proof. unfold is_byte, uint8. apply Z.mod_pos_bound. lia. Qed.

Lemma bl_bit_cases (l : I2CLCD) :
  (backlight l = true /\ bl_bit l = 8) \/ (backlight l = false /\ bl_bit l = 0).
Proof. unfold bl_bit. destruct (backlight l); auto. Qed.

(** ** The trace of [send] *)

Lemma tx_bytes_app (e1 e2 : list Event) :
  tx_bytes (e1 ++ e2) = tx_bytes e1 ++ tx_bytes e2.
Proof.
  induction e1 as [|[a w|ms] e1 IH]; simpl; auto.
  now rewrite IH, app_assoc.
Qed.

Lemma send_events_explicit (l : I2CLCD) (v m : Z) :
  is_mode m ->
  let hi := Z.lor (Z.land v 0xF0) m in
  let lo := Z.lor (Z.land (Z.shiftl v 4) 0xF0) m in
  let bl := bl_bit l in
  send_events l v m =
    [ EvTx (addr l) [Z.lor hi bl];
      EvTx (addr l) [Z.lor (Z.lor hi 0x04) bl]; EvSleep 1;
      EvTx (addr l) [Z.lor hi bl]; EvSleep 1;
      EvTx (addr l) [Z.lor lo bl];
      EvTx (addr l) [Z.lor (Z.lor lo 0x04) bl]; EvSleep 1;
      EvTx (addr l) [Z.lor lo bl]; EvSleep 1 ].
Proof.
  intros Hm. cbv zeta. unfold send_events, nibble_events, wr.
  rewrite land_uint8_F0, !nibble_enable_clear by exact Hm. reflexivity.
Qed.

Lemma tx_bytes_send_events (l : I2CLCD) (v m : Z) :
  is_mode m -> tx_bytes (send_events l v m) = send_bytes (bl_bit l) v m.
Proof.
  intros Hm. rewrite (send_events_explicit l v m Hm). reflexivity.
Qed.

(** What the controller latches from the six bytes of a [send]. *)
Lemma strobes_send_bytes (bl v m : Z) :
  bl = 0 \/ bl = 8 -> is_byte v -> is_mode m ->
  strobes None (send_bytes bl v m)
    = [(m =? 1, Z.shiftr v 4); (m =? 1, Z.land v 0x0F)]
  /\ strobe_state None (send_bytes bl v m) = None
  /\ map (fun b => Z.testbit b 2) (send_bytes bl v m)
     = [false; true; false; false; true; false]
  /\ Z.lor (Z.shiftl (Z.shiftr v 4) 4) (Z.land v 0x0F) = v.
Proof.
  intros Hbl Hv Hm.
  pose (ok := fun bl m v =>
    (let s := strobes None (send_bytes bl v m) in
     match s with
     | [(r1, n1); (r2, n2)] =>
       Bool.eqb r1 (m =? 1) && Bool.eqb r2 (m =? 1)
       && (n1 =? Z.shiftr v 4) && (n2 =? Z.land v 0x0F)
     | _ => false
     end)
    && match strobe_state None (send_bytes bl v m) with
       | None => true | Some _ => false end
    && match map (fun b => Z.testbit b 2) (send_bytes bl v m) with
       | [false; true; false; false; true; false] => true
       | _ => false
       end
    && (Z.lor (Z.shiftl (Z.shiftr v 4) 4) (Z.land v 0x0F) =? v)).
  assert (ok bl m v = true) as H.
  { destruct Hbl as [-> | ->], Hm as [-> | ->];
      (apply byte_cases; [vm_compute; reflexivity | exact Hv]). }
  unfold ok in H. clear ok.
  destruct (strobes None (send_bytes bl v m)) as [|[r1 n1] [|[r2 n2] [|? ?]]];
    try discriminate H.
  destruct (strobe_state None (send_bytes bl v m)); [now rewrite andb_false_r in H|].
  rewrite !andb_true_iff in H.
  destruct H as [[[H1 _] H3] H4].
  destruct H1 as [[[Hr1 Hr2] Hn1] Hn2].
  apply Bool.eqb_prop in Hr1, Hr2. apply Z.eqb_eq in Hn1, Hn2, H4.
  subst. repeat split; try assumption.
  destruct (map (fun b => Z.testbit b 2) (send_bytes bl v m))
    as [|[] [|[] [|[] [|[] [|[] [|[] [|? ?]]]]]]]; try discriminate H3.
  reflexivity.
Qed.

Lemma strobes_app (h : option Z) (xs ys : list Z) :
  strobes h (xs ++ ys) = strobes h xs ++ strobes (strobe_state h xs) ys.
Proof.
  revert h. induction xs as [|x xs IH]; intros h;
    cbn [strobes strobe_state app]; [reflexivity|].
  destruct (Z.testbit x 2); [apply IH|].
  destruct h; cbn [app]; now rewrite IH.
Qed.

Lemma nibbles_send_app (l : I2CLCD) (v m : Z) (rest : list Event) :
  is_byte v -> is_mode m ->
  nibbles (send_events l v m ++ rest)
    = (m =? 1, Z.shiftr v 4) :: (m =? 1, Z.land v 0x0F) :: nibbles rest.
Proof.
  intros Hv Hm. unfold nibbles.
  rewrite tx_bytes_app, strobes_app, (tx_bytes_send_events l v m Hm).
  assert (bl_bit l = 0 \/ bl_bit l = 8) as Hbl
    by (destruct (bl_bit_cases l) as [[_ ->]|[_ ->]]; auto).
  destruct (strobes_send_bytes (bl_bit l) v m Hbl Hv Hm) as (-> & -> & _).
  reflexivity.
Qed.

Lemma received_send_app (l : I2CLCD) (v m : Z) (rest : list Event) :
  is_byte v -> is_mode m ->
  received (send_events l v m ++ rest) = (m =? 1, v) :: received rest.
Proof.
  intros Hv Hm. unfold received. rewrite (nibbles_send_app l v m rest Hv Hm).
  cbn [pair_up].
  assert (bl_bit l = 0 \/ bl_bit l = 8) as Hbl
    by (destruct (bl_bit_cases l) as [[_ ->]|[_ ->]]; auto).
  destruct (strobes_send_bytes (bl_bit l) v m Hbl Hv Hm) as (_ & _ & _ & ->).
  reflexivity.
Qed.

Lemma received_send (l : I2CLCD) (v m : Z) :
  is_byte v -> is_mode m -> received (send_events l v m) = [(m =? 1, v)].
Proof.
  intros Hv Hm. rewrite <- (app_nil_r (send_events l v m)).
  now rewrite received_send_app.
Qed.

Lemma received_data_events (l : I2CLCD) (bs : list Z) (rest : list Event) :
  Forall is_byte bs ->
  received (data_events l bs ++ rest) = map (pair true) bs ++ received rest.
Proof.
  induction 1 as [|b bs Hb _ IH]; [reflexivity|].
  unfold data_events. cbn [flat_map map]. rewrite <- app_assoc.
  rewrite received_send_app by (auto; right; reflexivity).
  fold (data_events l bs). now rewrite IH.
Qed.

Lemma received_sleep (ms : Z) (rest : list Event) :
  received (EvSleep ms :: rest) = received rest.
Proof. reflexivity. Qed.

(** ** C1: the writes of one byte transfer *)

(** C1, as stated, fails: sending the data byte 0x41 ('A') on a fresh
    session puts six bytes on the bus, not the four of two bare enable
    pulses. *)
Lemma send_not_four_writes :
  tx_bytes (events (send 0x41 1) lcd0 healthy) <> four_writes 0x08 0x41 1
  /\ length (tx_bytes (events (send 0x41 1) lcd0 healthy)) = 6%nat.
Proof. split; [vm_compute; discriminate | vm_compute; reflexivity]. Qed.

(** C1, amended: for every byte [v] and mode bit [m], [send v m] returns
    normally, leaves the session as it is and makes exactly six expander
    writes: for the high nibble [(v & 0xF0) | m] and then for the low nibble
    [((v << 4) & 0xF0) | m], the nibble as it is, the nibble with enable
    high, the nibble with enable low, each ORed with the backlight bit of the
    session, with a 1 ms delay after each enable edge.  The controller
    latches exactly two nibbles, which make up [v] in mode [m]. *)
Theorem send_six_writes (v m : Z) (l : I2CLCD) (wd : World) :
  is_byte v -> is_mode m ->
  let hi := Z.lor (Z.land v 0xF0) m in
  let lo := Z.lor (Z.land (Z.shiftl v 4) 0xF0) m in
  let bl := if backlight l then 0x08 else 0x00 in
  outcome (send v m) l wd = Ret tt
  /\ session_after (send v m) l wd = l
  /\ events (send v m) l wd =
       [ EvTx (addr l) [Z.lor hi bl];
         EvTx (addr l) [Z.lor (Z.lor hi 0x04) bl]; EvSleep 1;
         EvTx (addr l) [Z.lor hi bl]; EvSleep 1;
         EvTx (addr l) [Z.lor lo bl];
         EvTx (addr l) [Z.lor (Z.lor lo 0x04) bl]; EvSleep 1;
         EvTx (addr l) [Z.lor lo bl]; EvSleep 1 ]
  /\ map (fun b => Z.testbit b 2) (tx_bytes (events (send v m) l wd))
       = [false; true; false; false; true; false]
  /\ nibbles (events (send v m) l wd)
       = [(m =? 1, Z.shiftr v 4); (m =? 1, Z.land v 0x0F)]
  /\ received (events (send v m) l wd) = [(m =? 1, v)].
Proof.
  intros Hv Hm hi lo bl.
  pose proof (yields_send v m l) as Y.
  rewrite (yields_outcome _ _ _ _ _ wd Y), (yields_session _ _ _ _ _ wd Y),
    (yields_events _ _ _ _ _ wd Y).
  assert (bl_bit l = 0 \/ bl_bit l = 8) as Hbl
    by (destruct (bl_bit_cases l) as [[_ ->]|[_ ->]]; auto).
  destruct (strobes_send_bytes (bl_bit l) v m Hbl Hv Hm) as (_ & _ & He & _).
  repeat split.
  - exact (send_events_explicit l v m Hm).
  - rewrite (tx_bytes_send_events l v m Hm). exact He.
  - rewrite <- (app_nil_r (send_events l v m)).
    now rewrite nibbles_send_app.
  - now apply received_send.
Qed.

Lemma send_six_writes_witness :
  is_byte 0x41 /\ is_mode 1
  /\ nibbles (events (send 0x41 1) lcd0 healthy) = [(true, 4); (true, 1)]
  /\ received (events (send 0x41 1) lcd0 healthy) = [(true, 0x41)].
Proof.
  assert (is_byte 0x41) as Hv by (unfold is_byte; lia).
  assert (is_mode 1) as Hm by (right; reflexivity).
  split; [exact Hv|]. split; [exact Hm|].
  split; apply (send_six_writes 0x41 1 lcd0 healthy Hv Hm).
Defined.

(** ** C2: the display-control register *)

(** C2, on the code: after [DisplayOn], [CursorOn], [BlinkOff] the session
    records display on, cursor on, blink off, yet the last command byte that
    reached the controller is 0x0C (display on, cursor off, blink off) and
    not 0x0E: [BlinkOff] sends a constant and does not read the recorded
    cursor flag. *)
Theorem BlinkOff_drops_cursor_bit (l : I2CLCD) (wd : World) :
  let m := DisplayOn ;; CursorOn ;; BlinkOff in
  outcome m l wd = Ret tt
  /\ display (session_after m l wd) = true
  /\ cursor (session_after m l wd) = true
  /\ blink (session_after m l wd) = false
  /\ received (events m l wd) = [(false, 0x0C); (false, 0x0E); (false, 0x0C)]
  /\ last (received (events m l wd)) (false, 0) = (false, 0x0C)
  /\ Z.lor (Z.lor (Z.lor LCD_DISPLAYCONTROL LCD_DISPLAYON) LCD_CURSORON)
           LCD_BLINKOFF = 0x0E.
Proof.
  intros m.
  assert (yields m l (Ret tt)
            (set_blink false (set_cursor true (set_display true l)))
            (send_events l 0x0C 0 ++ send_events l 0x0E 0
             ++ send_events l 0x0C 0)) as Y.
  { unfold m.
    eapply yields_bind; [apply (yields_exec OpDisplayOn)|].
    eapply yields_bind; [apply (yields_exec OpCursorOn)|].
    apply (yields_exec OpBlinkOff). }
  rewrite (yields_outcome _ _ _ _ _ wd Y), (yields_session _ _ _ _ _ wd Y),
    (yields_events _ _ _ _ _ wd Y).
  assert (received (send_events l 0x0C 0 ++ send_events l 0x0E 0
                    ++ send_events l 0x0C 0)
          = [(false, 0x0C); (false, 0x0E); (false, 0x0C)]) as R.
  { rewrite !received_send_app, received_send;
      try (left; reflexivity); try (unfold is_byte; lia).
    reflexivity. }
  rewrite R. repeat split; reflexivity.
Qed.

(** ** C3: transport errors *)

Lemma yields_script (os : list Op) (l : I2CLCD) :
  yields (script os) l (script_outcome os) (script_session os l)
    (script_events os l).
Proof.
  unfold script. revert l.
  induction os as [|o os IH]; intros l;
    cbn [for_each script_outcome script_session script_events].
  - apply yields_ret.
  - pose proof (yields_exec o l) as Y.
    destruct (op_outcome o) as [[]|p].
    + eapply yields_bind; [exact Y|apply IH].
    + rewrite app_nil_r. apply yields_bind_panic. exact Y.
Qed.

(** C3, as stated, fails: on a bus where every transaction fails, [Clear]
    sees six transport errors and its caller holds exactly what the caller
    holds after [Clear] on a healthy bus. *)
Lemma Clear_swallows_transport_errors :
  ~ surfaces_transport_errors OpClear.
Proof.
  intros H. apply (H lcd0 broken).
  - vm_compute. discriminate.
  - reflexivity.
Qed.

(** C3, amended: a transport error returned by the bus is dropped inside
    [expanderWrite].  Whatever transactions fail, every public operation
    ends with the outcome and the session it has on a healthy bus, after
    attempting exactly the writes and delays it makes on a healthy bus
    (nothing is retried, nothing is skipped), and the operation called next
    attempts exactly its own writes as well. *)
Theorem transport_errors_are_dropped (o next : Op) (l : I2CLCD) (wd : World) :
  caller_view (exec o) l wd = caller_view (exec o) l healthy
  /\ events (exec o) l wd = events (exec o) l healthy
  /\ outcome (exec next) (session_after (exec o) l wd) (world_after (exec o) l wd)
     = outcome (exec next) (session_after (exec o) l healthy) healthy
  /\ events (exec next) (session_after (exec o) l wd) (world_after (exec o) l wd)
     = events (exec next) (session_after (exec o) l healthy) healthy.
Proof.
  pose proof (yields_exec o l) as Y.
  unfold caller_view.
  rewrite !(yields_outcome _ _ _ _ _ _ Y), !(yields_session _ _ _ _ _ _ Y),
    !(yields_events _ _ _ _ _ _ Y).
  pose proof (yields_exec next (op_session o l)) as Yn.
  rewrite !(yields_outcome _ _ _ _ _ _ Yn), !(yields_events _ _ _ _ _ _ Yn).
  repeat split.
Qed.

(** X19: Any sequence of public operations runs, as far as its caller can tell
    and as far as the attempted writes go, as on a healthy bus. *)
Lemma script_ignores_transport_errors (os : list Op) (l : I2CLCD) (wd : World) :
  caller_view (script os) l wd = caller_view (script os) l healthy
  /\ events (script os) l wd = events (script os) l healthy.
Proof.
  pose proof (yields_script os l) as Y. unfold caller_view.
  rewrite !(yields_outcome _ _ _ _ _ _ Y), !(yields_session _ _ _ _ _ _ Y),
    !(yields_events _ _ _ _ _ _ Y).
  split; reflexivity.
Qed.

(** ** C4: initialization *)

Lemma nibbles_sleep (ms : Z) (rest : list Event) :
  nibbles (EvSleep ms :: rest) = nibbles rest.
Proof. reflexivity. Qed.

Lemma is_byte_function_set (l : I2CLCD) : is_byte (function_set l).
Proof. unfold function_set, is_byte. destruct (1 <? rows l); lia. Qed.

(** C4, as stated, fails: the trace of [Init] is not the trace of the
    sequence whose reset steps are single nibble transfers; the first reset
    step alone strobes the controller twice (nibble 0x0, then nibble 0x3). *)
Lemma Init_not_single_nibbles :
  events Init lcd0 healthy <> events Init_single_nibbles lcd0 healthy
  /\ nibbles (firstn 12 (events Init lcd0 healthy)) = [(false, 0); (false, 3)]
  /\ nibbles (firstn 7 (events Init_single_nibbles lcd0 healthy)) = [(false, 3)].
Proof.
  split; [vm_compute; discriminate|].
  split; vm_compute; reflexivity.
Qed.

(** C4, amended: [Init] waits 50 ms, then sends the command bytes 0x03,
    0x03, 0x03, 0x02, function-set, display-control 0x0C, entry-mode 0x06 and
    clear-display 0x01 in this order, every one of them as a full byte send
    of two nibble transfers (so each reset step puts nibble 0x0 and then
    nibble 0x3, resp. 0x2, on the bus), with delays of 5 ms, 5 ms and 1 ms
    after the three 0x03 sends and 2 ms after clear, and finally turns the
    backlight on with one more expander write. *)
Theorem Init_sequence (l : I2CLCD) (wd : World) :
  outcome Init l wd = Ret tt
  /\ session_after Init l wd = set_backlight true l
  /\ events Init l wd =
       [EvSleep 50]
       ++ events (sendCommand 0x03) l wd ++ [EvSleep 5]
       ++ events (sendCommand 0x03) l wd ++ [EvSleep 5]
       ++ events (sendCommand 0x03) l wd ++ [EvSleep 1]
       ++ events (sendCommand 0x02) l wd
       ++ events (sendCommand (if 1 <? rows l then 0x28 else 0x20)) l wd
       ++ events (sendCommand (Z.lor LCD_DISPLAYCONTROL LCD_DISPLAYON)) l wd
       ++ events (sendCommand (Z.lor LCD_ENTRYMODESET LCD_ENTRYLEFT)) l wd
       ++ events (sendCommand LCD_CLEARDISPLAY) l wd ++ [EvSleep 2]
       ++ [EvTx (addr l) [0x08]]
  /\ nibbles (events Init l wd) =
       [ (false, 0x0); (false, 0x3);
         (false, 0x0); (false, 0x3);
         (false, 0x0); (false, 0x3);
         (false, 0x0); (false, 0x2);
         (false, 0x2); (false, if 1 <? rows l then 0x8 else 0x0);
         (false, 0x0); (false, 0xC);
         (false, 0x0); (false, 0x6);
         (false, 0x0); (false, 0x1) ]
  /\ sleeps (events Init l wd) =
       [50] ++ [1; 1; 1; 1] ++ [5] ++ [1; 1; 1; 1] ++ [5] ++ [1; 1; 1; 1] ++ [1]
       ++ [1; 1; 1; 1] ++ [1; 1; 1; 1] ++ [1; 1; 1; 1] ++ [1; 1; 1; 1]
       ++ [1; 1; 1; 1] ++ [2].
Proof.
  pose proof (yields_Init l) as Y.
  rewrite (yields_outcome _ _ _ _ _ wd Y), (yields_session _ _ _ _ _ wd Y),
    (yields_events _ _ _ _ _ wd Y), !events_sendCommand.
  split; [reflexivity|]. split; [reflexivity|].
  split; [reflexivity|]. split.
  - unfold init_events. cbn [app].
    assert (is_mode 0) as H0 by (left; reflexivity).
    pose proof (is_byte_function_set l) as Hf.
    repeat (rewrite nibbles_sleep
            || (rewrite nibbles_send_app by (assumption || (unfold is_byte; lia)))).
    unfold function_set. destruct (1 <? rows l); reflexivity.
  - reflexivity.
Qed.

(** ** C5: the backlight line *)

Lemma testbit3_nibble (v m : Z) :
  is_mode m -> Z.testbit (Z.lor (Z.land v 0xF0) m) 3 = false.
Proof.
  intros Hm. rewrite Z.lor_spec, Z.land_spec.
  replace (Z.testbit 0xF0 3) with false by reflexivity.
  rewrite andb_false_r. destruct Hm as [-> | ->]; reflexivity.
Qed.

Lemma testbit3_bl_bit (l : I2CLCD) : Z.testbit (bl_bit l) 3 = backlight l.
Proof. unfold bl_bit. destruct (backlight l); reflexivity. Qed.

(** One expander write carries the session's backlight flag as long as the
    data it is given leaves bit 3 alone. *)
Lemma expanderWrite_backlight (data : Z) (l : I2CLCD) (wd : World) :
  Z.testbit data 3 = false ->
  all_backlight (backlight l) (tx_bytes (events (expanderWrite data) l wd)).
Proof.
  intros H. rewrite (yields_events _ _ _ _ _ wd (yields_expanderWrite data l)).
  repeat constructor. now rewrite Z.lor_spec, H, testbit3_bl_bit.
Qed.

Lemma all_backlight_send (l : I2CLCD) (v m : Z) :
  is_mode m -> all_backlight (backlight l) (tx_bytes (send_events l v m)).
Proof.
  intros Hm. rewrite (tx_bytes_send_events l v m Hm).
  unfold send_bytes, all_backlight.
  repeat constructor;
    rewrite Z.lor_spec, testbit3_bl_bit;
    first [ rewrite testbit3_nibble by exact Hm
          | rewrite Z.lor_spec, testbit3_nibble by exact Hm ];
    reflexivity.
Qed.

Lemma all_backlight_app (b : bool) (xs ys : list Z) :
  all_backlight b xs -> all_backlight b ys -> all_backlight b (xs ++ ys).
Proof. intros; apply Forall_app; split; assumption. Qed.

Lemma all_backlight_data (l : I2CLCD) (bs : list Z) :
  all_backlight (backlight l) (tx_bytes (data_events l bs)).
Proof.
  induction bs as [|b bs IH]; [constructor|].
  unfold data_events. cbn [flat_map]. rewrite tx_bytes_app.
  apply all_backlight_app; [|exact IH].
  apply all_backlight_send. right; reflexivity.
Qed.

Ltac backlight_send :=
  repeat first
    [ rewrite tx_bytes_app
    | apply all_backlight_send; (left + right); reflexivity
    | apply all_backlight_data
    | apply all_backlight_app
    | constructor ].

Lemma init_events_split (l : I2CLCD) :
  exists pre, tx_bytes (init_events l) = pre ++ [0x08]
              /\ all_backlight (backlight l) pre.
Proof.
  unfold init_events. rewrite !app_assoc, tx_bytes_app.
  eexists. split; [reflexivity|].
  rewrite <- !app_assoc. change (tx_bytes (?a :: ?b)) with (tx_bytes b).
  backlight_send.
Qed.

(** C5: every byte an operation writes to the expander has bit 0x08 equal to
    the session's backlight flag at the time of the write.  The flag is
    assigned only by [Backlight], [NoBacklight] and, at its end, [Init], each
    time right before the operation's last write: that write carries the new
    flag, all writes before it the flag the operation started with.  Every
    other operation leaves the flag alone and all its writes carry it. *)
Theorem backlight_bit_on_every_write (o : Op) (l : I2CLCD) (wd : World) :
  let bs := tx_bytes (events (exec o) l wd) in
  let l' := session_after (exec o) l wd in
  if assigns_backlight o
  then all_backlight (backlight l) (removelast bs)
       /\ all_backlight (backlight l') [last bs 0]
  else backlight l' = backlight l
       /\ all_backlight (backlight l) bs.
Proof.
  pose proof (yields_exec o l) as Y. cbv zeta.
  rewrite (yields_session _ _ _ _ _ wd Y), (yields_events _ _ _ _ _ wd Y).
  destruct o; cbn [assigns_backlight op_session op_events];
    try (split; [reflexivity|]; backlight_send).
  - destruct (init_events_split l) as (pre & -> & Hpre).
    rewrite removelast_last, last_last. split; [exact Hpre|].
    repeat constructor.
  - split; repeat constructor.
  - split; repeat constructor.
Qed.

(** ** C6: cursor addressing *)

Lemma is_byte_lor (a b : Z) : is_byte a -> is_byte b -> is_byte (Z.lor a b).
Proof.
  unfold is_byte. intros [Ha1 Ha2] [Hb1 Hb2]. split.
  - apply Z.lor_nonneg. auto.
  - destruct (Z.eq_dec (Z.lor a b) 0) as [->|Hz]; [lia|].
    apply (Z.log2_lt_pow2 _ 8); [pose proof (proj2 (Z.lor_nonneg a b)); lia|].
    rewrite Z.log2_lor by lia.
    destruct (Z.eq_dec a 0) as [->|]; destruct (Z.eq_dec b 0) as [->|];
      try (change (Z.log2 0) with 0);
      repeat match goal with
             | |- context [Z.log2 ?x] =>
               lazymatch x with
               | 0 => fail
               | _ => assert (Z.log2 x < 8) by (apply Z.log2_lt_pow2; lia);
                      pose proof (Z.log2_nonneg x);
                      generalize dependent (Z.log2 x); intros
               end
             end; lia.
Qed.

(** C6: [SetCursor col row] replaces [row] by [rows - 1] when
    [row >= rows], leaves [col] as it is, and sends the one command byte
    [0x80 | (col + row * 0x40)], the arithmetic being that of [uint8]. *)
Theorem SetCursor_address (col row : Z) (l : I2CLCD) (wd : World) :
  let clamped := if rows l <=? row then uint8 (rows l - 1) else row in
  let address := uint8 (col + clamped * 0x40) in
  outcome (SetCursor col row) l wd = Ret tt
  /\ session_after (SetCursor col row) l wd = l
  /\ events (SetCursor col row) l wd
     = events (sendCommand (Z.lor LCD_SETDDRAMADDR address)) l wd
  /\ received (events (SetCursor col row) l wd)
     = [(false, Z.lor 0x80 address)].
Proof.
  cbv zeta.
  pose proof (yields_SetCursor col row l) as Y.
  rewrite (yields_outcome _ _ _ _ _ wd Y), (yields_session _ _ _ _ _ wd Y),
    (yields_events _ _ _ _ _ wd Y).
  rewrite (yields_events _ _ _ _ _ wd (yields_sendCommand _ l)).
  repeat split.
  apply received_send; [|left; reflexivity].
  apply is_byte_lor; [unfold is_byte; lia|apply is_byte_uint8].
Qed.

(** ** C7 and C10: custom characters *)

Lemma is_byte_cgram_command (location : Z) :
  is_byte (Z.lor 0x40 (cgram_addr location)).
Proof.
  apply is_byte_lor; [unfold is_byte; lia|].
  unfold cgram_addr, is_byte. rewrite Z.shiftl_mul_pow2 by lia.
  pose proof (land7_range location). lia.
Qed.

Lemma land7_idem (x : Z) : Z.land (Z.land x 0x07) 0x07 = Z.land x 0x07.
Proof. rewrite <- Z.land_assoc. reflexivity. Qed.

Lemma firstn_8_of_8 (charmap : list Z) :
  length charmap = 8%nat -> firstn 8 charmap = charmap.
Proof. intros H. rewrite <- H. apply firstn_all. Qed.

(** C7: for every location and every glyph of eight bytes, [CreateChar]
    returns normally after sending the set-CGRAM-address command with
    address [(location & 7) << 3] and then exactly the eight glyph bytes as
    data, in order; only the low three bits of [location] matter, so slot 9
    gives the write sequence of slot 1. *)
Theorem CreateChar_masks_location
  (location : Z) (charmap : list Z) (l : I2CLCD) (wd : World) :
  length charmap = 8%nat ->
  Forall is_byte charmap ->
  outcome (CreateChar location charmap) l wd = Ret tt
  /\ events (CreateChar location charmap) l wd
     = events (sendCommand
                 (Z.lor LCD_SETCGRAMADDR (Z.shiftl (Z.land location 0x07) 3)))
              l wd
       ++ events (for_each charmap sendData) l wd
  /\ received (events (CreateChar location charmap) l wd)
     = (false, Z.lor 0x40 (Z.shiftl (Z.land location 0x07) 3))
       :: map (pair true) charmap
  /\ events (CreateChar location charmap) l wd
     = events (CreateChar (Z.land location 0x07) charmap) l wd
  /\ events (CreateChar 9 charmap) l wd = events (CreateChar 1 charmap) l wd.
Proof.
  intros Hlen Hbytes.
  rewrite !(yields_events _ _ _ _ _ wd (yields_CreateChar _ charmap l)).
  rewrite (yields_outcome _ _ _ _ _ wd (yields_CreateChar location charmap l)).
  rewrite events_sendCommand, events_for_each_sendData.
  rewrite (firstn_8_of_8 _ Hlen).
  cbn [op_outcome]. rewrite Hlen.
  split; [reflexivity|]. split; [reflexivity|]. split; [|split].
  - rewrite received_send_app;
      [|apply is_byte_cgram_command|left; reflexivity].
    rewrite <- (app_nil_r (data_events l charmap)).
    rewrite (received_data_events l charmap [] Hbytes), app_nil_r.
    reflexivity.
  - unfold cgram_addr. now rewrite land7_idem.
  - reflexivity.
Qed.

Lemma CreateChar_masks_location_witness :
  let heart := [0x00; 0x0A; 0x1F; 0x1F; 0x0E; 0x04; 0x00; 0x00] in
  length heart = 8%nat
  /\ Forall is_byte heart
  /\ received (events (CreateChar 9 heart) lcd0 healthy)
     = (false, 0x48) :: map (pair true) heart.
Proof.
  intros heart.
  assert (length heart = 8%nat) as Hlen by reflexivity.
  assert (Forall is_byte heart) as Hb
    by (repeat constructor; unfold is_byte; lia).
  split; [exact Hlen|]. split; [exact Hb|].
  apply (CreateChar_masks_location 9 heart lcd0 healthy Hlen Hb).
Defined.

(** C10: [CreateChar] first sends the set-CGRAM-address command and then
    indexes [charmap] at 0, 1, ..., 7.  With fewer than eight bytes it
    panics with an index out of range at the first missing index, after the
    address command and the rows that exist have been sent; with eight bytes
    or more it returns normally.  A short glyph is neither padded nor
    rejected beforehand. *)
Theorem CreateChar_short_glyph_panics
  (location : Z) (charmap : list Z) (l : I2CLCD) (wd : World) :
  outcome (CreateChar location charmap) l wd
    = (if (8 <=? length charmap)%nat then Ret tt
       else Panicked (IndexOutOfRange (length charmap) (length charmap)))
  /\ session_after (CreateChar location charmap) l wd = l
  /\ events (CreateChar location charmap) l wd
     = events (sendCommand
                 (Z.lor LCD_SETCGRAMADDR (Z.shiftl (Z.land location 0x07) 3)))
              l wd
       ++ events (for_each (firstn 8 charmap) sendData) l wd.
Proof.
  pose proof (yields_CreateChar location charmap l) as Y.
  rewrite (yields_outcome _ _ _ _ _ wd Y), (yields_session _ _ _ _ _ wd Y),
    (yields_events _ _ _ _ _ wd Y).
  rewrite events_sendCommand, events_for_each_sendData.
  repeat split.
Qed.

(** A glyph of three rows: the address command and three data bytes reach
    the controller, then the method panics. *)
Example CreateChar_three_rows :
  outcome (CreateChar 0 [0x1F; 0x11; 0x1F]) lcd0 healthy
    = Panicked (IndexOutOfRange 3 3)
  /\ received (events (CreateChar 0 [0x1F; 0x11; 0x1F]) lcd0 healthy)
     = [(false, 0x40); (true, 0x1F); (true, 0x11); (true, 0x1F)].
Proof. split; vm_compute; reflexivity. Qed.

(** ** Printing: what the controller receives *)

Lemma received_data_map (l : I2CLCD) (rs : list Z) :
  received (data_events l (map byte_of_rune rs))
    = map (fun char => (true, char mod 256)) rs.
Proof.
  rewrite <- (app_nil_r (data_events l _)).
  rewrite received_data_events.
  - rewrite app_nil_r, map_map. reflexivity.
  - apply Forall_forall. intros b Hb. apply in_map_iff in Hb.
    destruct Hb as (r & <- & _). apply is_byte_uint8.
Qed.

(** Ranging over text: ASCII, a two-byte and a three-byte encoding, and a
    byte that starts no encoding. *)
Example range_ascii : Utf8.range "Hi" = [0x48; 0x69].
Proof. reflexivity. Qed.

Example range_e_acute :
  Utf8.range (String (ascii_of_nat 0xC3) (String (ascii_of_nat 0xA9) EmptyString))
  = [0xE9].
Proof. reflexivity. Qed.

Example range_euro :
  Utf8.range (String (ascii_of_nat 0xE2) (String (ascii_of_nat 0x82)
               (String (ascii_of_nat 0xAC) EmptyString)))
  = [0x20AC].
Proof. reflexivity. Qed.

Example range_invalid :
  Utf8.range (String (ascii_of_nat 0xFF) "A") = [0xFFFD; 0x41].
Proof. reflexivity. Qed.

Example Print_euro :
  received (events (Print (String (ascii_of_nat 0xE2) (String (ascii_of_nat 0x82)
                            (String (ascii_of_nat 0xAC) EmptyString))))
                   lcd0 healthy)
  = [(true, 0xAC)].
Proof. vm_compute. reflexivity. Qed.

(** ** C9: delays *)

Lemma testbit2_bl_bit (l : I2CLCD) : Z.testbit (bl_bit l) 2 = false.
Proof. unfold bl_bit. destruct (backlight l); reflexivity. Qed.

Lemma testbit2_nibble (v m : Z) :
  is_mode m -> Z.testbit (Z.lor (Z.land v 0xF0) m) 2 = false.
Proof.
  intros Hm. rewrite Z.lor_spec, Z.land_spec.
  replace (Z.testbit 0xF0 2) with false by reflexivity.
  rewrite andb_false_r. destruct Hm as [-> | ->]; reflexivity.
Qed.

(** One nibble transfer: whatever the enable line was, the two delays are
    settle delays and the line is low afterwards. *)
Lemma settle_nibble (l : I2CLCD) (x : Z) (en edge : bool) (rest : list Event) :
  Z.testbit x 2 = false ->
  settle_only en edge (nibble_events l x ++ rest) = settle_only false false rest.
Proof.
  intros Hx. unfold nibble_events, wr. cbn [app settle_only].
  rewrite !Z.lor_spec, Z.land_spec, Hx, testbit2_bl_bit.
  replace (Z.testbit 4 2) with true by reflexivity.
  cbn [orb andb xorb Z.eqb Pos.eqb]. reflexivity.
Qed.

Lemma settle_send (l : I2CLCD) (v m : Z) (en edge : bool) (rest : list Event) :
  is_mode m ->
  settle_only en edge (send_events l v m ++ rest) = settle_only false false rest.
Proof.
  intros Hm. unfold send_events. rewrite <- app_assoc.
  rewrite !settle_nibble by (apply testbit2_nibble; exact Hm). reflexivity.
Qed.

Lemma settle_data (l : I2CLCD) (bs : list Z) (rest : list Event) :
  settle_only false false (data_events l bs ++ rest)
    = settle_only false false rest.
Proof.
  induction bs as [|b bs IH]; [reflexivity|].
  unfold data_events. cbn [flat_map]. rewrite <- app_assoc.
  rewrite settle_send by (right; reflexivity). exact IH.
Qed.

Lemma settle_send_end (l : I2CLCD) (v m : Z) (en edge : bool) :
  is_mode m -> settle_only en edge (send_events l v m) = true.
Proof.
  intros Hm. rewrite <- (app_nil_r (send_events l v m)).
  now rewrite settle_send.
Qed.

(** C9: [Clear] and [Home] send their one command byte (0x01, resp. 0x02)
    and then wait 2 ms.  Of all public operations only [Init], [Clear] and
    [Home] make a delay that is not the 1 ms settle delay right after an
    enable edge: in every other operation each delay is such a settle
    delay. *)
Theorem long_delays_only_after_Clear_and_Home
  (o : Op) (l : I2CLCD) (wd : World) :
  events Clear l wd
    = events (sendCommand LCD_CLEARDISPLAY) l wd ++ [EvSleep 2]
  /\ events Home l wd
     = events (sendCommand LCD_RETURNHOME) l wd ++ [EvSleep 2]
  /\ received (events Clear l wd) = [(false, 0x01)]
  /\ received (events Home l wd) = [(false, 0x02)]
  /\ sleeps (events Clear l wd) = [1; 1; 1; 1; 2]
  /\ sleeps (events Home l wd) = [1; 1; 1; 1; 2]
  /\ settle_only false false (events (exec o) l wd) = negb (has_long_delay o).
Proof.
  rewrite !(yields_events _ _ _ _ _ wd (yields_Clear l)),
    !(yields_events _ _ _ _ _ wd (yields_Home l)),
    !(yields_events _ _ _ _ _ wd (yields_sendCommand _ l)),
    (yields_events _ _ _ _ _ wd (yields_exec o l)).
  assert (is_mode 0) as H0 by (left; reflexivity).
  assert (is_mode 1) as H1 by (right; reflexivity).
  split; [reflexivity|]. split; [reflexivity|].
  split; [rewrite received_send_app by (assumption || (unfold is_byte; lia));
          reflexivity|].
  split; [rewrite received_send_app by (assumption || (unfold is_byte; lia));
          reflexivity|].
  split; [reflexivity|]. split; [reflexivity|].
  destruct o; cbn [op_events has_long_delay negb];
    try (apply settle_send_end; assumption).
  - reflexivity.
  - rewrite settle_send by assumption. reflexivity.
  - rewrite settle_send by assumption. reflexivity.
  - rewrite <- (app_nil_r (data_events l _)). now rewrite settle_data.
  - reflexivity.
  - reflexivity.
  - rewrite settle_send by assumption.
    rewrite <- (app_nil_r (data_events l _)). now rewrite settle_data.
Qed.

(** ** Ranging over well-formed text *)

Lemma upto_spec (f : Z -> bool) (n : nat) (c : Z) :
  upto n c f = true -> forall k, c <= k < c + Z.of_nat n -> f k = true.
Proof.
  revert c. induction n as [|n IH]; intros c H k Hk; [lia|].
  cbn [upto] in H. apply andb_true_iff in H. destruct H as [Hc Hrest].
  destruct (Z.eq_dec k c) as [->|Hne]; [exact Hc|].
  apply (IH (c + 1) Hrest). lia.
Qed.

Lemma all_scalars_decode_back :
  upto (Z.to_nat 0x110000) 0
       (fun c => negb (scalar c)
                 || (decodes_back c && forallb byteb (utf8_encode c))) = true.
Proof. vm_compute. reflexivity. Qed.

Lemma scalar_encoding (c : Z) :
  scalar c = true ->
  decodes_back c = true /\ forallb byteb (utf8_encode c) = true.
Proof.
  intros Hs.
  assert (0 <= c < 0 + Z.of_nat (Z.to_nat 0x110000)) as Hc.
  { unfold scalar in Hs. rewrite Z2Nat.id by lia.
    apply orb_true_iff in Hs. destruct Hs as [H|H];
      apply andb_true_iff in H; destruct H as [H1 H2];
      [apply Z.leb_le in H1; apply Z.ltb_lt in H2
      |apply Z.leb_le in H1; apply Z.leb_le in H2]; lia. }
  pose proof (upto_spec _ _ _ all_scalars_decode_back c Hc) as H.
  cbv beta in H. rewrite Hs in H. now apply andb_true_iff in H.
Qed.

Lemma runes_encode_app (c : Z) (rest : list Z) :
  decodes_back c = true ->
  Utf8.runes (utf8_encode c ++ rest) = c :: Utf8.runes rest.
Proof.
  unfold decodes_back. intros H.
  destruct (utf8_encode c) as [|b0 [|b1 [|b2 [|b3 [|b4 bs]]]]];
    try discriminate H; cbn [app Utf8.runes].
  - apply andb_true_iff in H. destruct H as [H0 Hc].
    rewrite H0. apply Z.eqb_eq in Hc. now subst.
  - rewrite !andb_true_iff in H. destruct H as [[H0 Hl] Hc].
    apply negb_true_iff in H0. rewrite H0.
    destruct (Utf8.lead b0) as [[[|[|[|[|sz]]]] [lo hi]]|]; try discriminate Hl.
    rewrite Hl. cbn [negb Nat.eqb]. apply Z.eqb_eq in Hc. now rewrite Hc.
  - rewrite !andb_true_iff in H. destruct H as [[[H0 Hl] H2] Hc].
    apply negb_true_iff in H0. rewrite H0.
    destruct (Utf8.lead b0) as [[[|[|[|[|sz]]]] [lo hi]]|]; try discriminate Hl.
    rewrite Hl, H2. cbn [negb Nat.eqb]. apply Z.eqb_eq in Hc. now rewrite Hc.
  - rewrite !andb_true_iff in H. destruct H as [[[[H0 Hl] H2] H3] Hc].
    apply negb_true_iff in H0. rewrite H0.
    destruct (Utf8.lead b0) as [[[|[|[|[|[|sz]]]]] [lo hi]]|];
      try discriminate Hl.
    rewrite Hl, H2, H3. cbn [negb Nat.eqb]. apply Z.eqb_eq in Hc.
    now rewrite Hc.
Qed.

(** Ranging over the UTF-8 encoding of a sequence of scalar values yields
    these values, one per iteration. *)
Lemma runes_of_encoding (cs : list Z) :
  forallb scalar cs = true ->
  Utf8.runes (flat_map utf8_encode cs) = cs.
Proof.
  induction cs as [|c cs IH]; intros H; [reflexivity|].
  cbn [forallb] in H. apply andb_true_iff in H. destruct H as [Hc Hcs].
  cbn [flat_map]. rewrite runes_encode_app by now apply scalar_encoding.
  now rewrite IH.
Qed.

Lemma bytes_string_of_bytes (bs : list Z) :
  Forall is_byte bs -> Utf8.bytes (string_of_bytes bs) = bs.
Proof.
  induction 1 as [|b bs Hb _ IH]; [reflexivity|].
  cbn [string_of_bytes Utf8.bytes]. rewrite IH. f_equal.
  unfold is_byte in Hb. rewrite nat_ascii_embedding by lia. lia.
Qed.

Lemma is_byte_byteb (b : Z) : byteb b = true -> is_byte b.
Proof.
  unfold byteb, is_byte. intros H. apply andb_true_iff in H.
  destruct H as [H1 H2]. apply Z.leb_le in H1. apply Z.ltb_lt in H2. lia.
Qed.

Lemma encoding_bytes (cs : list Z) :
  forallb scalar cs = true -> Forall is_byte (flat_map utf8_encode cs).
Proof.
  induction cs as [|c cs IH]; intros H; [constructor|].
  cbn [forallb] in H. apply andb_true_iff in H. destruct H as [Hc Hcs].
  cbn [flat_map]. apply Forall_app. split; [|now apply IH].
  destruct (scalar_encoding c Hc) as [_ Hb].
  apply Forall_forall. intros b Hin. apply is_byte_byteb.
  rewrite forallb_forall in Hb. now apply Hb.
Qed.

(** X12: Printing well-formed text: the controller receives one data byte per
    code point, the code point modulo 256. *)
Lemma Print_well_formed_text (cs : list Z) (l : I2CLCD) (wd : World) :
  forallb scalar cs = true ->
  received (events (Print (string_of_bytes (flat_map utf8_encode cs))) l wd)
    = map (fun c => (true, c mod 256)) cs.
Proof.
  intros H.
  rewrite (yields_events _ _ _ _ _ wd (yields_Print _ l)), received_data_map.
  unfold Utf8.range.
  rewrite bytes_string_of_bytes by now apply encoding_bytes.
  now rewrite runes_of_encoding.
Qed.

(** ** Cursor addressing on concrete displays *)

(** On the 16x2 session: row 1 starts at 0x40, a row beyond the last is
    taken as the last, and a column beyond the visible ones is sent as it
    is. *)
Example SetCursor_16x2 :
  received (events (SetCursor 0 1) lcd0 healthy) = [(false, 0xC0)]
  /\ received (events (SetCursor 3 5) lcd0 healthy) = [(false, 0xC3)]
  /\ received (events (SetCursor 200 0) lcd0 healthy) = [(false, 0xC8)].
Proof. repeat split; vm_compute; reflexivity. Qed.

(** With [rows = 0] the clamped row is [0 - 1] in [uint8], that is 255. *)
Example SetCursor_no_rows :
  received (events (SetCursor 0 0) (NewI2CLCD 0x27 16 0) healthy)
  = [(false, 0xC0)].
Proof. vm_compute. reflexivity. Qed.

(* ================================================================= *)
(** * Further properties of the driver *)

(** ** [send] looks at the low eight bits only *)

Lemma land_shiftl4_F0 (v : Z) :
  Z.land (Z.shiftl v 4) 0xF0 = Z.shiftl (Z.land v 0x0F) 4.
Proof. rewrite Z.shiftl_land. reflexivity. Qed.

Lemma land_uint8_0F (v : Z) : Z.land (uint8 v) 0x0F = Z.land v 0x0F.
Proof.
  unfold uint8. pose proof (Z.land_ones v 8 ltac:(lia)) as E.
  change (2 ^ 8) with 256 in E. rewrite <- E, <- Z.land_assoc. reflexivity.
Qed.

Lemma send_events_uint8 (l : I2CLCD) (v m : Z) :
  send_events l (uint8 v) m = send_events l v m.
Proof.
  unfold send_events.
  rewrite !land_uint8_F0, !land_shiftl4_F0, land_uint8_0F. reflexivity.
Qed.

Lemma data_events_uint8 (l : I2CLCD) (bs : list Z) :
  data_events l (map uint8 bs) = data_events l bs.
Proof.
  induction bs as [|b bs IH]; [reflexivity|].
  unfold data_events in *. cbn [map flat_map].
  now rewrite send_events_uint8, IH.
Qed.

(** Whatever [v] is, the controller receives [v mod 256]. *)
Lemma received_send_any (l : I2CLCD) (v m : Z) (rest : list Event) :
  is_mode m ->
  received (send_events l v m ++ rest) = (m =? 1, v mod 256) :: received rest.
Proof.
  intros Hm. rewrite <- send_events_uint8.
  apply received_send_app; [apply is_byte_uint8|exact Hm].
Qed.

Lemma received_data_any (l : I2CLCD) (bs : list Z) (rest : list Event) :
  received (data_events l bs ++ rest)
    = map (fun b => (true, b mod 256)) bs ++ received rest.
Proof.
  rewrite <- data_events_uint8, received_data_events, map_map; [reflexivity|].
  apply Forall_forall. intros b Hb. apply in_map_iff in Hb.
  destruct Hb as (x & <- & _). apply is_byte_uint8.
Qed.

(** What the controller receives from every public operation. *)
Lemma received_exec (o : Op) (l : I2CLCD) (wd : World) :
  received (events (exec o) l wd) = op_received o l.
Proof.
  rewrite (yields_events _ _ _ _ _ wd (yields_exec o l)).
  assert (is_mode 0) as H0 by (left; reflexivity).
  assert (forall v, received (send_events l v 0) = [(false, v mod 256)]) as S.
  { intros v. rewrite <- (app_nil_r (send_events l v 0)).
    now rewrite received_send_any. }
  destruct o; cbn [op_events op_received]; try (rewrite S; reflexivity).
  - unfold init_events. cbn [app].
    repeat (rewrite received_sleep || rewrite received_send_any by exact H0).
    unfold function_set. destruct (1 <? rows l); reflexivity.
  - rewrite received_send_any by exact H0. reflexivity.
  - rewrite received_send_any by exact H0. reflexivity.
  - apply received_data_map.
  - rewrite S. f_equal. f_equal. apply Z.mod_small.
    apply (is_byte_lor 0x80); [unfold is_byte; lia|apply is_byte_uint8].
  - reflexivity.
  - reflexivity.
  - rewrite received_send_any by exact H0.
    rewrite <- (app_nil_r (data_events l _)), received_data_any, app_nil_r.
    f_equal. f_equal. apply Z.mod_small. apply is_byte_cgram_command.
Qed.

(** ** Every transaction is one byte to the session's address *)

Lemma one_byte_send (l : I2CLCD) (v m : Z) :
  Forall (one_byte_to (addr l)) (send_events l v m).
Proof.
  unfold send_events, nibble_events, wr.
  repeat constructor; cbn; lia.
Qed.

Lemma one_byte_data (l : I2CLCD) (bs : list Z) :
  Forall (one_byte_to (addr l)) (data_events l bs).
Proof.
  induction bs as [|b bs IH]; [constructor|].
  unfold data_events. cbn [flat_map]. apply Forall_app. split; [|exact IH].
  apply one_byte_send.
Qed.

Ltac one_byte :=
  repeat first
    [ apply one_byte_send
    | apply one_byte_data
    | apply Forall_app; split
    | apply Forall_cons; [cbn; auto; lia|]
    | apply Forall_nil ].

(** X1: Every transaction of every public operation goes to the address the
    session was built with and carries exactly one byte, and every delay is
    positive. *)
Theorem writes_are_single_bytes_to_the_device
  (o : Op) (l : I2CLCD) (wd : World) :
  Forall (one_byte_to (addr l)) (events (exec o) l wd).
Proof.
  rewrite (yields_events _ _ _ _ _ wd (yields_exec o l)).
  destruct o; cbn [op_events]; unfold init_events; one_byte.
Qed.

(** ** Nibble framing *)

Lemma strobe_state_app (h : option Z) (xs ys : list Z) :
  strobe_state h (xs ++ ys) = strobe_state (strobe_state h xs) ys.
Proof.
  revert h. induction xs as [|x xs IH]; intros h;
    cbn [strobe_state app]; [reflexivity|].
  destruct (Z.testbit x 2); apply IH.
Qed.

Lemma aligned_nil : aligned [].
Proof. split; reflexivity. Qed.

Lemma aligned_app (e1 e2 : list Event) :
  aligned e1 -> aligned e2 -> aligned (e1 ++ e2).
Proof.
  unfold aligned, nibbles. intros [S1 N1] [S2 N2].
  rewrite tx_bytes_app, strobe_state_app, strobes_app, S1. split; [exact S2|].
  rewrite length_app, Nat.even_add, N1, N2. reflexivity.
Qed.

Lemma nibbles_app (e1 e2 : list Event) :
  aligned e1 -> nibbles (e1 ++ e2) = nibbles e1 ++ nibbles e2.
Proof.
  unfold aligned, nibbles. intros [S1 _].
  now rewrite tx_bytes_app, strobes_app, S1.
Qed.

Lemma send_bytes_uint8 (bl v m : Z) :
  send_bytes bl (uint8 v) m = send_bytes bl v m.
Proof.
  unfold send_bytes.
  rewrite !land_uint8_F0, !land_shiftl4_F0, land_uint8_0F. reflexivity.
Qed.

Lemma aligned_send (l : I2CLCD) (v m : Z) :
  is_mode m -> aligned (send_events l v m).
Proof.
  intros Hm. unfold aligned, nibbles.
  rewrite (tx_bytes_send_events l v m Hm), <- send_bytes_uint8.
  assert (bl_bit l = 0 \/ bl_bit l = 8) as Hbl
    by (destruct (bl_bit_cases l) as [[_ ->]|[_ ->]]; auto).
  destruct (strobes_send_bytes (bl_bit l) (uint8 v) m Hbl (is_byte_uint8 v) Hm)
    as (-> & -> & _).
  split; reflexivity.
Qed.

Lemma aligned_data (l : I2CLCD) (bs : list Z) : aligned (data_events l bs).
Proof.
  induction bs as [|b bs IH]; [apply aligned_nil|].
  unfold data_events. cbn [flat_map]. apply aligned_app; [|exact IH].
  apply aligned_send. right; reflexivity.
Qed.

Lemma aligned_sleep (ms : Z) : aligned [EvSleep ms].
Proof. split; reflexivity. Qed.

Lemma aligned_backlight_write (l : I2CLCD) : aligned [wr l 0x00].
Proof.
  unfold aligned, nibbles, wr. cbn [tx_bytes app strobe_state strobes].
  rewrite Z.lor_0_l, testbit2_bl_bit. split; reflexivity.
Qed.

Lemma aligned_op (o : Op) (l : I2CLCD) : aligned (op_events o l).
Proof.
  assert (is_mode 0) as H0 by (left; reflexivity).
  destruct o; cbn [op_events]; unfold init_events;
    repeat first
      [ apply aligned_send; exact H0
      | apply aligned_data
      | apply aligned_sleep
      | apply aligned_backlight_write
      | apply aligned_app ].
Qed.

(** X2: Every public operation, also one that panics, leaves the enable line
    low and has handed the controller an even number of nibbles: in 4-bit
    mode the operation that follows starts on a byte boundary. *)
Theorem operations_keep_nibble_framing (o : Op) (l : I2CLCD) (wd : World) :
  strobe_state None (tx_bytes (events (exec o) l wd)) = None
  /\ Nat.even (length (nibbles (events (exec o) l wd))) = true.
Proof.
  rewrite (yields_events _ _ _ _ _ wd (yields_exec o l)).
  exact (aligned_op o l).
Qed.

Lemma pair_up_app (xs ys : list (bool * Z)) :
  Nat.even (length xs) = true -> pair_up (xs ++ ys) = pair_up xs ++ pair_up ys.
Proof.
  remember (length xs) as n eqn:Hn. revert xs Hn.
  induction n as [n IH] using lt_wf_ind. intros xs Hn He.
  destruct xs as [|[r1 a] [|[r2 b] xs]].
  - reflexivity.
  - subst n. discriminate He.
  - cbn [app pair_up]. f_equal.
    apply (IH (length xs)); [subst n; cbn; lia|reflexivity|].
    subst n. exact He.
Qed.

Lemma received_app (e1 e2 : list Event) :
  aligned e1 -> received (e1 ++ e2) = received e1 ++ received e2.
Proof.
  intros H. unfold received. rewrite (nibbles_app e1 e2 H).
  apply pair_up_app. apply H.
Qed.

(** X3: When an operation returns normally, what the controller receives from
    it and from the operation called next is what it receives from the first
    followed by what it receives from the second. *)
Theorem received_of_two_operations (o1 o2 : Op) (l : I2CLCD) (wd : World) :
  outcome (exec o1) l wd = Ret tt ->
  received (events (exec o1 ;; exec o2) l wd)
  = received (events (exec o1) l wd)
    ++ received (events (exec o2) (session_after (exec o1) l wd)
                        (world_after (exec o1) l wd)).
Proof.
  pose proof (yields_exec o1 l) as Y1.
  rewrite (yields_outcome _ _ _ _ _ wd Y1), (yields_session _ _ _ _ _ wd Y1),
    (yields_events _ _ _ _ _ wd Y1).
  intros Hr.
  pose proof (yields_exec o2 (op_session o1 l)) as Y2.
  rewrite (yields_events _ _ _ _ _ _ Y2).
  rewrite Hr in Y1.
  rewrite (yields_events _ _ _ _ _ wd (yields_bind _ _ _ _ _ _ _ _ _ Y1 Y2)).
  apply received_app. apply aligned_op.
Qed.

Lemma received_of_two_operations_witness :
  outcome (exec (OpSetCursor 0 1)) lcd0 healthy = Ret tt
  /\ received (events (exec (OpSetCursor 0 1) ;; exec (OpPrint "Hi"))
                      lcd0 healthy)
     = [(false, 0xC0); (true, 0x48); (true, 0x69)].
Proof.
  assert (outcome (exec (OpSetCursor 0 1)) lcd0 healthy = Ret tt) as H
    by reflexivity.
  split; [exact H|].
  rewrite (received_of_two_operations (OpSetCursor 0 1) (OpPrint "Hi")
             lcd0 healthy H).
  vm_compute. reflexivity.
Defined.

(** ** The backlight flag persists *)

Lemma all_backlight_op (o : Op) (l : I2CLCD) :
  assigns_backlight o = false ->
  all_backlight (backlight l) (tx_bytes (op_events o l)).
Proof.
  destruct o; cbn [assigns_backlight op_events]; intros H;
    try discriminate H; backlight_send.
Qed.

Lemma op_received_set_backlight (o : Op) (b : bool) (l : I2CLCD) :
  op_received o (set_backlight b l) = op_received o l.
Proof. destruct o; reflexivity. Qed.

Lemma yields_backlight_then (b : bool) (o : Op) (l : I2CLCD) :
  yields ((if b then Backlight else NoBacklight) ;; exec o) l
    (op_outcome o) (op_session o (set_backlight b l))
    ([wr (set_backlight b l) 0x00] ++ op_events o (set_backlight b l)).
Proof.
  eapply yields_bind; [|apply yields_exec].
  destruct b; [apply yields_Backlight|apply yields_NoBacklight].
Qed.

(** X4: [NoBacklight] and [Backlight] make one write (0x00, resp. 0x08), no
    delay, and the controller latches nothing.  The flag they set carries
    over: every byte the next operation writes has bit 0x08 clear after
    [NoBacklight] and set after [Backlight], unless that operation assigns
    the flag itself ([Init], [Backlight], [NoBacklight]); the controller
    receives from the next operation what it receives without the backlight
    call. *)
Theorem backlight_flag_carries_over (o : Op) (l : I2CLCD) (wd : World) :
  assigns_backlight o = false ->
  events NoBacklight l wd = [EvTx (addr l) [0x00]]
  /\ events Backlight l wd = [EvTx (addr l) [0x08]]
  /\ all_backlight false (tx_bytes (events (NoBacklight ;; exec o) l wd))
  /\ all_backlight true (tx_bytes (events (Backlight ;; exec o) l wd))
  /\ received (events (NoBacklight ;; exec o) l wd)
     = received (events (exec o) l wd)
  /\ received (events (Backlight ;; exec o) l wd)
     = received (events (exec o) l wd).
Proof.
  intros Ho.
  rewrite (yields_events _ _ _ _ _ wd (yields_NoBacklight l)),
    (yields_events _ _ _ _ _ wd (yields_Backlight l)),
    !(yields_events _ _ _ _ _ wd (yields_backlight_then false o l)),
    !(yields_events _ _ _ _ _ wd (yields_backlight_then true o l)),
    !received_exec.
  split; [reflexivity|]. split; [reflexivity|].
  split; [|split; [|split]].
  - rewrite tx_bytes_app. apply all_backlight_app.
    + repeat constructor.
    + apply (all_backlight_op o (set_backlight false l) Ho).
  - rewrite tx_bytes_app. apply all_backlight_app.
    + repeat constructor.
    + apply (all_backlight_op o (set_backlight true l) Ho).
  - rewrite received_app by apply aligned_backlight_write.
    rewrite <- (yields_events _ _ _ _ _ wd (yields_exec o _)), received_exec.
    apply op_received_set_backlight.
  - rewrite received_app by apply aligned_backlight_write.
    rewrite <- (yields_events _ _ _ _ _ wd (yields_exec o _)), received_exec.
    apply op_received_set_backlight.
Qed.

Lemma backlight_flag_carries_over_witness :
  assigns_backlight (OpPrint "Hi") = false
  /\ tx_bytes (events (NoBacklight ;; exec (OpPrint "Hi")) lcd0 healthy)
     = [0x00;
        0x41; 0x45; 0x41; 0x81; 0x85; 0x81;
        0x61; 0x65; 0x61; 0x91; 0x95; 0x91]
  /\ all_backlight false
       (tx_bytes (events (NoBacklight ;; exec (OpPrint "Hi")) lcd0 healthy)).
Proof.
  assert (assigns_backlight (OpPrint "Hi") = false) as H by reflexivity.
  split; [exact H|]. split; [vm_compute; reflexivity|].
  apply (backlight_flag_carries_over (OpPrint "Hi") lcd0 healthy H).
Defined.

(** ** The session's fields *)

(** X5: No public operation changes the address or the geometry.  The backlight
    flag is set by [Init] and [Backlight] and cleared by [NoBacklight]; the
    display, cursor and blink flags are written by their own two toggles
    only.  In particular [Init] leaves the display, cursor and blink flags as
    they were. *)
Theorem session_fields_after (o : Op) (l : I2CLCD) (wd : World) :
  let l' := session_after (exec o) l wd in
  addr l' = addr l /\ cols l' = cols l /\ rows l' = rows l
  /\ backlight l'
     = match o with
       | OpInit | OpBacklight => true
       | OpNoBacklight => false
       | _ => backlight l
       end
  /\ display l'
     = match o with
       | OpDisplayOn => true
       | OpDisplayOff => false
       | _ => display l
       end
  /\ cursor l'
     = match o with
       | OpCursorOn => true
       | OpCursorOff => false
       | _ => cursor l
       end
  /\ blink l'
     = match o with
       | OpBlinkOn => true
       | OpBlinkOff => false
       | _ => blink l
       end.
Proof.
  cbv zeta. rewrite (yields_session _ _ _ _ _ wd (yields_exec o l)).
  destruct o; repeat split.
Qed.

(** X6: No public operation reads the [cols], [display], [cursor] or [blink]
    field: with any other values in them the outcome and the events are the
    same. *)
Theorem flags_are_never_read
  (o : Op) (l : I2CLCD) (c : Z) (d cu b : bool) (wd : World) :
  outcome (exec o) (with_flags l c d cu b) wd = outcome (exec o) l wd
  /\ events (exec o) (with_flags l c d cu b) wd = events (exec o) l wd.
Proof.
  rewrite (yields_outcome _ _ _ _ _ wd (yields_exec o (with_flags l c d cu b))),
    (yields_outcome _ _ _ _ _ wd (yields_exec o l)),
    (yields_events _ _ _ _ _ wd (yields_exec o (with_flags l c d cu b))),
    (yields_events _ _ _ _ _ wd (yields_exec o l)).
  split; [reflexivity|]. destruct o; reflexivity.
Qed.

(** ** Entry mode *)

(** X7: The entry-mode methods send the whole entry-mode register:
    [Autoscroll] is [ShiftIncrement] (0x05), [NoAutoscroll] is
    [ShiftDecrement] is [RightToLeft] (0x04), [LeftToRight] is 0x06.  So
    turning autoscroll on or off after [LeftToRight] leaves the controller
    with the left-to-right bit (0x02) cleared. *)
Theorem entry_mode_methods_overwrite_each_other (l : I2CLCD) (wd : World) :
  events Autoscroll l wd = events ShiftIncrement l wd
  /\ events NoAutoscroll l wd = events ShiftDecrement l wd
  /\ events ShiftDecrement l wd = events RightToLeft l wd
  /\ received (events (LeftToRight ;; Autoscroll) l wd)
     = [(false, 0x06); (false, 0x05)]
  /\ received (events (LeftToRight ;; NoAutoscroll) l wd)
     = [(false, 0x06); (false, 0x04)]
  /\ Z.land 0x05 LCD_ENTRYLEFT = 0
  /\ Z.land 0x04 LCD_ENTRYLEFT = 0.
Proof.
  split; [reflexivity|]. split; [reflexivity|]. split; [reflexivity|].
  assert (forall o, yields (LeftToRight ;; exec o) l (op_outcome o)
                      (op_session o l)
                      (op_events OpLeftToRight l ++ op_events o l)) as Y.
  { intros o. eapply yields_bind; [apply (yields_exec OpLeftToRight l)|].
    apply (yields_exec o l). }
  change Autoscroll with (exec OpAutoscroll).
  change NoAutoscroll with (exec OpNoAutoscroll).
  rewrite !(yields_events _ _ _ _ _ wd (Y _)).
  rewrite !received_app by apply aligned_op.
  rewrite <- !(yields_events _ _ _ _ _ wd (yields_exec _ l)), !received_exec.
  repeat split.
Qed.

(** ** Display control *)

Lemma no_command_in_data (c : Z) (f : Z -> Z) (xs : list Z) :
  existsb (fun p : bool * Z => negb (fst p) && (snd p =? c))
          (map (fun x => (true, f x)) xs) = false.
Proof. induction xs as [|x xs IH]; [reflexivity|exact IH]. Qed.

Lemma lor_0x40_not_small (x c : Z) : c <= 0x0F -> 0 <= c -> Z.lor 0x40 x <> c.
Proof.
  intros Hc H0 E.
  assert (Z.testbit (Z.lor 0x40 x) 6 = true) as T
    by (rewrite Z.lor_spec; reflexivity).
  rewrite E in T.
  assert (c < 2 ^ 6) as Hlt by (change (2 ^ 6) with 64; lia).
  destruct (Z.eq_dec c 0) as [->|Hne]; [discriminate T|].
  rewrite Z.bits_above_log2 in T; [discriminate T|lia|].
  apply Z.log2_lt_pow2; lia.
Qed.

Lemma lor_0x80_not_small (x c : Z) : c <= 0x0F -> 0 <= c -> Z.lor 0x80 x <> c.
Proof.
  intros Hc H0 E.
  assert (Z.testbit (Z.lor 0x80 x) 7 = true) as T
    by (rewrite Z.lor_spec; reflexivity).
  rewrite E in T.
  destruct (Z.eq_dec c 0) as [->|Hne]; [discriminate T|].
  rewrite Z.bits_above_log2 in T; [discriminate T|lia|].
  apply Z.log2_lt_pow2; [lia|]. change (2 ^ 7) with 128. lia.
Qed.

(** X8: Whatever is called, the only display-control commands (0x08 to 0x0F)
    that reach the controller are 0x08, 0x0C, 0x0D and 0x0E: the driver never
    sends 0x0F, so cursor and blink are never on together, and never a
    command with the display off and the cursor or blink on. *)
Theorem display_control_commands (o : Op) (l : I2CLCD) (wd : World) (c : Z) :
  0x08 <= c <= 0x0F ->
  receives_command c (events (exec o) l wd) = true ->
  c = 0x08 \/ c = 0x0C \/ c = 0x0D \/ c = 0x0E.
Proof.
  intros Hc. unfold receives_command. rewrite received_exec.
  destruct o; cbn [op_received existsb fst snd negb andb orb];
    rewrite ?no_command_in_data, ?orb_false_r; intros H;
    try discriminate H;
    try (apply Z.eqb_eq in H; lia);
    repeat match type of H with
           | (_ || _)%bool = true =>
             apply orb_true_iff in H; destruct H as [H|H]
           end;
    try discriminate H;
    try (apply Z.eqb_eq in H;
         first [ lia
               | exfalso; revert H; apply lor_0x80_not_small; lia
               | exfalso; revert H; apply lor_0x40_not_small; lia
               | unfold function_set in H; destruct (1 <? rows l); lia ]).
Qed.

Lemma display_control_commands_witness :
  0x08 <= 0x0E <= 0x0F
  /\ receives_command 0x0E (events (exec OpCursorOn) lcd0 healthy) = true
  /\ (0x0E = 0x08 \/ 0x0E = 0x0C \/ 0x0E = 0x0D \/ 0x0E = 0x0E).
Proof.
  assert (0x08 <= 0x0E <= 0x0F) as Hc by lia.
  assert (receives_command 0x0E (events (exec OpCursorOn) lcd0 healthy) = true)
    as Hr by (vm_compute; reflexivity).
  split; [exact Hc|]. split; [exact Hr|].
  exact (display_control_commands OpCursorOn lcd0 healthy 0x0E Hc Hr).
Defined.

(** ** Cursor addressing *)

Lemma lor_0x80_low (x : Z) : 0 <= x < 128 -> Z.lor 0x80 x = 0x80 + x.
Proof.
  intros Hx.
  pose proof (byte_cases
                (fun x => negb (x <? 128) || (Z.lor 0x80 x =? 0x80 + x))
                ltac:(vm_compute; reflexivity) x
                ltac:(unfold is_byte; lia)) as H.
  cbv beta in H. destruct (Z.ltb_spec x 128); [|lia].
  now apply Z.eqb_eq in H.
Qed.

(** X9: On the first two rows of a display that has them, and for columns below
    64, the address byte is exact: the controller receives
    [0x80 + 0x40 * row + col]. *)
Theorem SetCursor_exact_on_two_rows (col row : Z) (l : I2CLCD) (wd : World) :
  0 <= col < 64 -> 0 <= row <= 1 -> row < rows l ->
  received (events (SetCursor col row) l wd)
  = [(false, 0x80 + 0x40 * row + col)].
Proof.
  intros Hcol Hrow Hrows.
  change (SetCursor col row) with (exec (OpSetCursor col row)).
  rewrite received_exec. cbn [op_received].
  unfold ddram_addr, clamp_row.
  destruct (Z.leb_spec (rows l) row); [lia|].
  rewrite uint8_small by lia. rewrite lor_0x80_low by lia.
  replace (0x80 + (col + row * 0x40)) with (0x80 + 0x40 * row + col) by lia.
  reflexivity.
Qed.

Lemma SetCursor_exact_on_two_rows_witness :
  0 <= 5 < 64 /\ 0 <= 1 <= 1 /\ 1 < rows lcd0
  /\ received (events (SetCursor 5 1) lcd0 healthy) = [(false, 0xC5)].
Proof.
  assert (0 <= 5 < 64) as H1 by lia.
  assert (0 <= 1 <= 1) as H2 by lia.
  assert (1 < rows lcd0) as H3 by (cbn; lia).
  split; [exact H1|]. split; [exact H2|]. split; [exact H3|].
  exact (SetCursor_exact_on_two_rows 5 1 lcd0 healthy H1 H2 H3).
Defined.

Lemma lor_0x80_plus_128 (x : Z) :
  Z.lor 0x80 (uint8 (x + 128)) = Z.lor 0x80 (uint8 x).
Proof.
  unfold uint8. rewrite <- (Z.add_mod_idemp_l x 128 256) by lia.
  pose proof (Z.mod_pos_bound x 256 ltac:(lia)) as Hb.
  pose proof (byte_cases
                (fun b => Z.lor 0x80 ((b + 128) mod 256) =? Z.lor 0x80 b)
                ltac:(vm_compute; reflexivity) (x mod 256) Hb) as H.
  cbv beta in H. now apply Z.eqb_eq in H.
Qed.

(** X10: The row stride 0x40 wraps in [uint8]: on a display with four rows or
    more, row 2 is addressed exactly like row 0 and row 3 exactly like
    row 1, for every column. *)
Theorem SetCursor_rows_2_and_3_alias (col : Z) (l : I2CLCD) (wd : World) :
  3 < rows l ->
  events (SetCursor col 2) l wd = events (SetCursor col 0) l wd
  /\ events (SetCursor col 3) l wd = events (SetCursor col 1) l wd.
Proof.
  intros Hrows.
  rewrite !(yields_events _ _ _ _ _ wd (yields_SetCursor _ _ l)).
  unfold ddram_addr, clamp_row.
  destruct (Z.leb_spec (rows l) 2); [lia|].
  destruct (Z.leb_spec (rows l) 0); [lia|].
  destruct (Z.leb_spec (rows l) 3); [lia|].
  destruct (Z.leb_spec (rows l) 1); [lia|].
  split.
  - replace (col + 2 * 64) with (col + 128) by lia.
    replace (col + 0 * 64) with col by lia.
    now rewrite lor_0x80_plus_128.
  - replace (col + 3 * 64) with (col + 1 * 64 + 128) by lia.
    now rewrite lor_0x80_plus_128.
Qed.

Lemma SetCursor_rows_2_and_3_alias_witness :
  3 < rows (NewI2CLCD 0x27 20 4)
  /\ received (events (SetCursor 7 2) (NewI2CLCD 0x27 20 4) healthy)
     = [(false, 0x87)]
  /\ events (SetCursor 7 2) (NewI2CLCD 0x27 20 4) healthy
     = events (SetCursor 7 0) (NewI2CLCD 0x27 20 4) healthy.
Proof.
  assert (3 < rows (NewI2CLCD 0x27 20 4)) as H by (cbn; lia).
  split; [exact H|]. split; [vm_compute; reflexivity|].
  apply (SetCursor_rows_2_and_3_alias 7 (NewI2CLCD 0x27 20 4) healthy H).
Defined.

(** ** Printing *)

Lemma runes_ascii (bs : list Z) :
  forallb (fun b => b <? 0x80) bs = true -> Utf8.runes bs = bs.
Proof.
  induction bs as [|b bs IH]; intros H; [reflexivity|].
  cbn [forallb] in H. apply andb_true_iff in H. destruct H as [Hb Hbs].
  cbn [Utf8.runes]. rewrite Hb, IH by exact Hbs. reflexivity.
Qed.

Lemma bytes_nonneg (text : string) : Forall (fun b => 0 <= b) (Utf8.bytes text).
Proof.
  induction text as [|c text IH]; cbn [Utf8.bytes]; constructor; [lia|exact IH].
Qed.

(** X11: ASCII text is sent byte for byte: the controller receives the bytes of
    the string, in order, as data.  The empty string makes no event at
    all. *)
Theorem Print_ascii (text : string) (l : I2CLCD) (wd : World) :
  ascii_text text = true ->
  received (events (Print text) l wd) = map (pair true) (Utf8.bytes text)
  /\ events (Print EmptyString) l wd = [].
Proof.
  intros H. unfold ascii_text in H.
  rewrite !(yields_events _ _ _ _ _ wd (yields_Print _ l)).
  split; [|reflexivity].
  rewrite received_data_map. unfold Utf8.range. rewrite (runes_ascii _ H).
  pose proof (bytes_nonneg text) as Hn.
  induction (Utf8.bytes text) as [|b bs IH]; [reflexivity|].
  cbn [forallb] in H. apply andb_true_iff in H. destruct H as [Hb Hbs].
  inversion Hn as [|? ? Hb0 Hn']; subst.
  cbn [map]. rewrite IH by assumption.
  apply Z.ltb_lt in Hb. rewrite Z.mod_small by lia. reflexivity.
Qed.

Lemma Print_ascii_witness :
  ascii_text "LCD 16x2" = true
  /\ received (events (Print "LCD 16x2") lcd0 healthy)
     = [ (true, 0x4C); (true, 0x43); (true, 0x44); (true, 0x20);
         (true, 0x31); (true, 0x36); (true, 0x78); (true, 0x32) ].
Proof.
  assert (ascii_text "LCD 16x2" = true) as H by reflexivity.
  split; [exact H|].
  exact (proj1 (Print_ascii "LCD 16x2" lcd0 healthy H)).
Defined.

(** X13: Well-formed text whose code points agree modulo 256 prints alike: the
    events of [Print] are the same. *)
Theorem Print_confuses_code_points_modulo_256
  (cs1 cs2 : list Z) (l : I2CLCD) (wd : World) :
  forallb scalar cs1 = true ->
  forallb scalar cs2 = true ->
  map (fun c => c mod 256) cs1 = map (fun c => c mod 256) cs2 ->
  events (Print (string_of_bytes (flat_map utf8_encode cs1))) l wd
  = events (Print (string_of_bytes (flat_map utf8_encode cs2))) l wd.
Proof.
  intros H1 H2 E.
  rewrite !(yields_events _ _ _ _ _ wd (yields_Print _ l)).
  unfold Utf8.range.
  rewrite !bytes_string_of_bytes by now apply encoding_bytes.
  rewrite !runes_of_encoding by assumption.
  unfold byte_of_rune, uint8. now rewrite E.
Qed.

Lemma Print_confuses_code_points_modulo_256_witness :
  forallb scalar [0x20AC; 0x0141] = true
  /\ forallb scalar [0xAC; 0x41] = true
  /\ map (fun c => c mod 256) [0x20AC; 0x0141]
     = map (fun c => c mod 256) [0xAC; 0x41]
  /\ events (Print (string_of_bytes (flat_map utf8_encode [0x20AC; 0x0141])))
            lcd0 healthy
     = events (Print (string_of_bytes (flat_map utf8_encode [0xAC; 0x41])))
              lcd0 healthy.
Proof.
  assert (forallb scalar [0x20AC; 0x0141] = true) as H1 by reflexivity.
  assert (forallb scalar [0xAC; 0x41] = true) as H2 by reflexivity.
  assert (map (fun c => c mod 256) [0x20AC; 0x0141]
          = map (fun c => c mod 256) [0xAC; 0x41]) as E by reflexivity.
  split; [exact H1|]. split; [exact H2|]. split; [exact E|].
  exact (Print_confuses_code_points_modulo_256 _ _ lcd0 healthy H1 H2 E).
Defined.

Lemma Print_well_formed_text_witness :
  forallb scalar [0x48; 0xE9; 0x20AC; 0x1F600] = true
  /\ received (events (Print (string_of_bytes
                                (flat_map utf8_encode
                                          [0x48; 0xE9; 0x20AC; 0x1F600])))
                      lcd0 healthy)
     = [(true, 0x48); (true, 0xE9); (true, 0xAC); (true, 0x00)].
Proof.
  assert (forallb scalar [0x48; 0xE9; 0x20AC; 0x1F600] = true) as H
    by reflexivity.
  split; [exact H|].
  exact (Print_well_formed_text _ lcd0 healthy H).
Defined.

(** ** Custom characters of any length *)

Lemma cgram_command_arith (location : Z) :
  Z.lor 0x40 (cgram_addr location) = 0x40 + 8 * (location mod 8).
Proof.
  unfold cgram_addr.
  pose proof (Z.land_ones location 3 ltac:(lia)) as E.
  change (Z.ones 3) with 7 in E. change (2 ^ 3) with 8 in E. rewrite E.
  pose proof (Z.mod_pos_bound location 8 ltac:(lia)) as Hb.
  assert (location mod 8 = 0 \/ location mod 8 = 1 \/ location mod 8 = 2
          \/ location mod 8 = 3 \/ location mod 8 = 4 \/ location mod 8 = 5
          \/ location mod 8 = 6 \/ location mod 8 = 7) as C by lia.
  destruct C as [-> | [-> | [-> | [-> | [-> | [-> | [-> | ->]]]]]]];
    reflexivity.
Qed.

(** X14: For every location and every slice, whatever its length and its
    values, the controller receives the command [0x40 + 8 * (location mod 8)]
    and then, as data, the first eight elements of the slice (all of them if
    there are fewer). *)
Theorem CreateChar_received
  (location : Z) (charmap : list Z) (l : I2CLCD) (wd : World) :
  received (events (CreateChar location charmap) l wd)
  = (false, 0x40 + 8 * (location mod 8))
    :: map (fun b => (true, b mod 256)) (firstn 8 charmap).
Proof.
  change (CreateChar location charmap) with (exec (OpCreateChar location charmap)).
  rewrite received_exec. cbn [op_received].
  now rewrite cgram_command_arith.
Qed.

(** X15: A slice longer than eight bytes is accepted and its bytes after the
    eighth are ignored. *)
Theorem CreateChar_ignores_extra_rows
  (location : Z) (glyph extra : list Z) (l : I2CLCD) (wd : World) :
  length glyph = 8%nat ->
  outcome (CreateChar location (glyph ++ extra)) l wd = Ret tt
  /\ events (CreateChar location (glyph ++ extra)) l wd
     = events (CreateChar location glyph) l wd.
Proof.
  intros Hlen.
  rewrite (yields_outcome _ _ _ _ _ wd (yields_CreateChar _ _ l)),
    !(yields_events _ _ _ _ _ wd (yields_CreateChar _ _ l)).
  cbn [op_outcome]. rewrite length_app, Hlen.
  split; [reflexivity|].
  rewrite firstn_app, Hlen, Nat.sub_diag, firstn_O, app_nil_r. reflexivity.
Qed.

Lemma CreateChar_ignores_extra_rows_witness :
  let glyph := [0x00; 0x0A; 0x1F; 0x1F; 0x0E; 0x04; 0x00; 0x00] in
  length glyph = 8%nat
  /\ events (CreateChar 2 (glyph ++ [0xFF; 0xFF])) lcd0 healthy
     = events (CreateChar 2 glyph) lcd0 healthy.
Proof.
  intros glyph.
  assert (length glyph = 8%nat) as H by reflexivity.
  split; [exact H|].
  exact (proj2 (CreateChar_ignores_extra_rows 2 glyph [0xFF; 0xFF]
                  lcd0 healthy H)).
Defined.

(** ** What an operation costs *)

Lemma sleeps_app (e1 e2 : list Event) : sleeps (e1 ++ e2) = sleeps e1 ++ sleeps e2.
Proof.
  induction e1 as [|[a w|ms] e1 IH]; cbn [app sleeps]; [reflexivity|exact IH|].
  now rewrite IH.
Qed.

Lemma total_delay_app (e1 e2 : list Event) :
  total_delay (e1 ++ e2) = total_delay e1 + total_delay e2.
Proof.
  unfold total_delay. rewrite sleeps_app.
  induction (sleeps e1) as [|s ss IH]; cbn [app fold_right]; lia.
Qed.

Lemma cost_data (l : I2CLCD) (bs : list Z) :
  Z.of_nat (length (tx_bytes (data_events l bs))) = 6 * Z.of_nat (length bs)
  /\ total_delay (data_events l bs) = 4 * Z.of_nat (length bs).
Proof.
  induction bs as [|b bs [IH1 IH2]]; [split; reflexivity|].
  unfold data_events in *. cbn [flat_map].
  rewrite tx_bytes_app, length_app, total_delay_app, Nat2Z.inj_add, IH1, IH2.
  change (length (tx_bytes (send_events l b 1))) with 6%nat.
  change (total_delay (send_events l b 1)) with 4.
  cbn [length]. lia.
Qed.

(** X16: Every byte sent to the controller costs six bus writes and 4 ms of
    settle delays.  On top of that [Init], [Backlight] and [NoBacklight]
    make one write for the backlight, and [Init] waits 63 ms, [Clear] and
    [Home] 2 ms.  So printing n runes takes 6 n writes and 4 n ms, and
    [Init] 49 writes and 95 ms. *)
Theorem cost_of_operations (o : Op) (l : I2CLCD) (wd : World) :
  let evs := events (exec o) l wd in
  let n := Z.of_nat (length (received evs)) in
  Z.of_nat (length (tx_bytes evs))
  = 6 * n + (if assigns_backlight o then 1 else 0)
  /\ total_delay evs = 4 * n + long_delay o.
Proof.
  cbv zeta. rewrite received_exec.
  rewrite (yields_events _ _ _ _ _ wd (yields_exec o l)).
  destruct o; cbn [op_events op_received assigns_backlight long_delay];
    try (split; reflexivity).
  - rewrite length_map.
    destruct (cost_data l (map byte_of_rune (Utf8.range text))) as [-> ->].
    rewrite length_map. lia.
  - rewrite tx_bytes_app, length_app, total_delay_app, Nat2Z.inj_add.
    destruct (cost_data l (firstn 8 charmap)) as [-> ->].
    change (length (tx_bytes (send_events l ?c 0))) with 6%nat.
    change (total_delay (send_events l ?c 0)) with 4.
    cbn [length]. rewrite length_map. lia.
Qed.

Example cost_of_Init_and_Print :
  length (tx_bytes (events Init lcd0 healthy)) = 49%nat
  /\ total_delay (events Init lcd0 healthy) = 95
  /\ length (tx_bytes (events (Print "Hello") lcd0 healthy)) = 30%nat
  /\ total_delay (events (Print "Hello") lcd0 healthy) = 20.
Proof. repeat split; vm_compute; reflexivity. Qed.

(** ** The shape of the enable pulses *)

Lemma well_pulsed_nil : well_pulsed [].
Proof. intros p rest Hp. exists p. split; [exact Hp|reflexivity]. Qed.

Lemma well_pulsed_app (xs ys : list Z) :
  well_pulsed xs -> well_pulsed ys -> well_pulsed (xs ++ ys).
Proof.
  intros Hx Hy p rest Hp.
  destruct (Hx p (ys ++ rest) Hp) as (q1 & Hq1 & E1).
  destruct (Hy q1 rest Hq1) as (q2 & Hq2 & E2).
  exists q2. split; [exact Hq2|]. now rewrite <- app_assoc, E1.
Qed.

Lemma well_pulsed_low (b : Z) : Z.testbit b 2 = false -> well_pulsed [b].
Proof.
  intros Hb p rest Hp. exists b. split; [exact Hb|].
  cbn [app stable_from]. now rewrite Hb, Hp.
Qed.

Lemma land_FB_bl_bit (l : I2CLCD) : Z.land (bl_bit l) 0xFB = bl_bit l.
Proof. unfold bl_bit. destruct (backlight l); reflexivity. Qed.

Lemma well_pulsed_nibble (l : I2CLCD) (v m : Z) :
  is_mode m ->
  well_pulsed (tx_bytes (nibble_events l (Z.lor (Z.land v 0xF0) m))).
Proof.
  intros Hm p rest Hp.
  set (x := Z.lor (Z.land v 0xF0) m).
  assert (Z.testbit x 2 = false) as Hx2 by now apply testbit2_nibble.
  assert (Z.land x 0xFB = x) as HxFB
    by (rewrite <- not8_4; now apply nibble_enable_clear).
  exists (Z.lor x (bl_bit l)).
  assert (Z.testbit (Z.lor x (bl_bit l)) 2 = false) as Hlow
    by (now rewrite Z.lor_spec, Hx2, testbit2_bl_bit).
  split; [exact Hlow|].
  unfold nibble_events, wr. cbn [tx_bytes app stable_from].
  rewrite not8_4, HxFB.
  assert (Z.testbit (Z.lor (Z.lor x 4) (bl_bit l)) 2 = true) as Hhigh
    by (rewrite !Z.lor_spec, Hx2, testbit2_bl_bit; reflexivity).
  assert (Z.land (Z.lor (Z.lor x 4) (bl_bit l)) 0xFB = Z.lor x (bl_bit l)) as E.
  { rewrite !Z.land_lor_distr_l, HxFB, land_FB_bl_bit.
    change (Z.land 4 0xFB) with 0. now rewrite Z.lor_0_r. }
  rewrite Hlow, Hp, Hhigh, E, Z.eqb_refl. reflexivity.
Qed.

Lemma well_pulsed_send (l : I2CLCD) (v m : Z) :
  is_mode m -> well_pulsed (tx_bytes (send_events l v m)).
Proof.
  intros Hm. unfold send_events. rewrite tx_bytes_app.
  apply well_pulsed_app; now apply well_pulsed_nibble.
Qed.

Lemma well_pulsed_data (l : I2CLCD) (bs : list Z) :
  well_pulsed (tx_bytes (data_events l bs)).
Proof.
  induction bs as [|b bs IH]; [apply well_pulsed_nil|].
  unfold data_events. cbn [flat_map]. rewrite tx_bytes_app.
  apply well_pulsed_app; [|exact IH].
  apply well_pulsed_send. right; reflexivity.
Qed.

Lemma well_pulsed_backlight_write (l : I2CLCD) : well_pulsed (tx_bytes [wr l 0x00]).
Proof.
  unfold wr. cbn [tx_bytes app]. apply well_pulsed_low.
  now rewrite Z.lor_0_l, testbit2_bl_bit.
Qed.

Lemma well_pulsed_op (o : Op) (l : I2CLCD) : well_pulsed (tx_bytes (op_events o l)).
Proof.
  assert (is_mode 0) as H0 by (left; reflexivity).
  assert (forall ms, well_pulsed (tx_bytes [EvSleep ms])) as Hs
    by (intros ms; apply well_pulsed_nil).
  destruct o; cbn [op_events]; unfold init_events;
    repeat first
      [ apply well_pulsed_send; exact H0
      | apply well_pulsed_data
      | apply Hs
      | apply well_pulsed_backlight_write
      | rewrite tx_bytes_app; apply well_pulsed_app ].
Qed.

(** X17: In every public operation the enable line goes high only in a write
    whose predecessor and successor are the same byte with the enable bit
    cleared: data, register-select and backlight lines are set up before
    the rising edge and held across the falling edge, and the operation ends
    with the line low. *)
Theorem enable_pulses_are_stable (o : Op) (l : I2CLCD) (wd : World) :
  stable_pulses (tx_bytes (events (exec o) l wd)) = true.
Proof.
  rewrite (yields_events _ _ _ _ _ wd (yields_exec o l)).
  destruct (well_pulsed_op o l 0 [] eq_refl) as (q & Hq & E).
  unfold stable_pulses. rewrite app_nil_r in E. rewrite E.
  cbn [stable_from]. now rewrite Hq.
Qed.

Lemma settled_nil : settled [].
Proof. intros rest. reflexivity. Qed.

Lemma settled_app (e1 e2 : list Event) :
  settled e1 -> settled e2 -> settled (e1 ++ e2).
Proof. intros H1 H2 rest. now rewrite <- app_assoc, H1, H2. Qed.

Lemma settled_sleep (ms : Z) : settled [EvSleep ms].
Proof. intros rest. reflexivity. Qed.

Lemma settled_nibble (l : I2CLCD) (v m : Z) :
  is_mode m -> settled (nibble_events l (Z.lor (Z.land v 0xF0) m)).
Proof.
  intros Hm rest.
  set (x := Z.lor (Z.land v 0xF0) m).
  assert (Z.testbit x 2 = false) as Hx2 by now apply testbit2_nibble.
  unfold nibble_events, wr. cbn [app edges_settled].
  rewrite !Z.lor_spec, Z.land_spec, Hx2, testbit2_bl_bit.
  replace (Z.testbit 4 2) with true by reflexivity.
  reflexivity.
Qed.

Lemma settled_send (l : I2CLCD) (v m : Z) :
  is_mode m -> settled (send_events l v m).
Proof.
  intros Hm. unfold send_events. apply settled_app; now apply settled_nibble.
Qed.

Lemma settled_data (l : I2CLCD) (bs : list Z) : settled (data_events l bs).
Proof.
  induction bs as [|b bs IH]; [apply settled_nil|].
  unfold data_events. cbn [flat_map]. apply settled_app; [|exact IH].
  apply settled_send. right; reflexivity.
Qed.

Lemma settled_backlight_write (l : I2CLCD) : settled [wr l 0x00].
Proof.
  intros rest. unfold wr. cbn [app edges_settled].
  now rewrite Z.lor_0_l, testbit2_bl_bit.
Qed.

Lemma settled_op (o : Op) (l : I2CLCD) : settled (op_events o l).
Proof.
  assert (is_mode 0) as H0 by (left; reflexivity).
  destruct o; cbn [op_events]; unfold init_events;
    repeat first
      [ apply settled_send; exact H0
      | apply settled_data
      | apply settled_sleep
      | apply settled_backlight_write
      | apply settled_app ].
Qed.

(** X18: In every public operation, [Init] included, each write that raises or
    lowers the enable line is directly followed by a delay of at least 1 ms:
    the enable pulse is at least 1 ms wide and the controller has 1 ms after
    the falling edge. *)
Theorem every_enable_edge_is_settled (o : Op) (l : I2CLCD) (wd : World) :
  edges_settled false (events (exec o) l wd) = true.
Proof.
  rewrite (yields_events _ _ _ _ _ wd (yields_exec o l)).
  rewrite <- (app_nil_r (op_events o l)). now rewrite settled_op.
Qed.

(** ** Printing in pieces *)

(** X20: Printing well-formed text in two calls, cut between two code points,
    makes the events of printing it in one call. *)
Theorem Print_in_pieces (cs1 cs2 : list Z) (l : I2CLCD) (wd : World) :
  forallb scalar cs1 = true ->
  forallb scalar cs2 = true ->
  events (Print (string_of_bytes (flat_map utf8_encode cs1)) ;;
          Print (string_of_bytes (flat_map utf8_encode cs2))) l wd
  = events (Print (string_of_bytes (flat_map utf8_encode (cs1 ++ cs2)))) l wd.
Proof.
  intros H1 H2.
  assert (forallb scalar (cs1 ++ cs2) = true) as H12
    by (rewrite forallb_app, H1, H2; reflexivity).
  rewrite (yields_events _ _ _ _ _ wd
             (yields_bind _ _ _ _ _ _ _ _ _
                (yields_Print _ l) (yields_Print _ l))).
  rewrite (yields_events _ _ _ _ _ wd (yields_Print _ l)).
  unfold Utf8.range.
  rewrite !bytes_string_of_bytes by now apply encoding_bytes.
  rewrite !runes_of_encoding by assumption.
  unfold data_events. now rewrite map_app, flat_map_app.
Qed.

Lemma Print_in_pieces_witness :
  forallb scalar [0x48; 0xE9] = true
  /\ forallb scalar [0x20AC] = true
  /\ received (events (Print (string_of_bytes (flat_map utf8_encode [0x48; 0xE9])) ;;
                       Print (string_of_bytes (flat_map utf8_encode [0x20AC])))
                      lcd0 healthy)
     = [(true, 0x48); (true, 0xE9); (true, 0xAC)].
Proof.
  assert (forallb scalar [0x48; 0xE9] = true) as H1 by reflexivity.
  assert (forallb scalar [0x20AC] = true) as H2 by reflexivity.
  split; [exact H1|]. split; [exact H2|].
  rewrite (Print_in_pieces [0x48; 0xE9] [0x20AC] lcd0 healthy H1 H2).
  vm_compute. reflexivity.
Defined.

(** Cut inside an encoding, the pieces print differently: each byte of the
    broken encoding is sent as 0xFD. *)
Example Print_cut_inside_an_encoding :
  received (events (Print (string_of_bytes [0xE2]) ;;
                    Print (string_of_bytes [0x82; 0xAC])) lcd0 healthy)
  = [(true, 0xFD); (true, 0xFD); (true, 0xFD)]
  /\ received (events (Print (string_of_bytes [0xE2; 0x82; 0xAC])) lcd0 healthy)
     = [(true, 0xAC)].
Proof. split; vm_compute; reflexivity. Qed.

(* ================================================================= *)
(** * Ranging over a string yields its code points *)

Lemma zlist_eqb_eq (xs ys : list Z) : zlist_eqb xs ys = true -> xs = ys.
Proof.
  revert ys. induction xs as [|x xs IH]; intros [|y ys] H;
    try discriminate H; [reflexivity|].
  cbn [zlist_eqb] in H. apply andb_true_iff in H. destruct H as [Hx Hxs].
  apply Z.eqb_eq in Hx. subst. f_equal. now apply IH.
Qed.

Lemma encodes_spec (c : Z) (bs : list Z) :
  encodes c bs = true -> scalar c = true /\ utf8_encode c = bs.
Proof.
  unfold encodes. intros H. apply andb_true_iff in H. destruct H as [Hs He].
  split; [exact Hs|now apply zlist_eqb_eq].
Qed.

Lemma between_spec (lo hi b : Z) :
  Utf8.between lo hi b = true -> lo <= b <= hi.
Proof.
  unfold Utf8.between. intros H. apply andb_true_iff in H.
  destruct H as [H1 H2]. apply Z.leb_le in H1, H2. lia.
Qed.

Lemma lead_ok_bytes (b0 : Z) : is_byte b0 -> lead_ok b0 = true.
Proof. apply byte_cases. vm_compute. reflexivity. Qed.

Lemma all_accepted2 :
  upto 30 0xC2 (fun b0 => upto 64 0x80 (fun b1 => accepted2 b0 b1)) = true.
Proof. vm_compute. reflexivity. Qed.

Lemma all_accepted3 :
  upto 16 0xE0 (fun b0 => upto 64 0x80 (fun b1 =>
    upto 64 0x80 (fun b2 => accepted3 b0 b1 b2))) = true.
Proof. vm_compute. reflexivity. Qed.

Lemma all_accepted4 :
  upto 5 0xF0 (fun b0 => upto 64 0x80 (fun b1 =>
    upto 64 0x80 (fun b2 => accepted4 b0 b1 b2))) = true.
Proof. vm_compute. reflexivity. Qed.

Lemma all_carry_low6 : upto 64 0x80 carries_low6 = true.
Proof. vm_compute. reflexivity. Qed.

(** What a lead byte announces, for the decoder's tests that follow. *)
Lemma lead_ranges (b0 : Z) (sz : nat) (lo hi : Z) :
  is_byte b0 ->
  Utf8.lead b0 = Some (sz, (lo, hi)) ->
  0x80 <= lo /\ hi <= 0xBF
  /\ ((sz = 2%nat /\ 0xC2 <= b0 <= 0xDF)
      \/ (sz = 3%nat /\ 0xE0 <= b0 <= 0xEF)
      \/ (sz = 4%nat /\ 0xF0 <= b0 <= 0xF4)).
Proof.
  intros Hb Hl. pose proof (lead_ok_bytes b0 Hb) as H.
  unfold lead_ok in H. rewrite Hl in H.
  rewrite !andb_true_iff in H. destruct H as [[Hlo Hhi] Hsz].
  apply Z.leb_le in Hlo, Hhi. split; [exact Hlo|]. split; [exact Hhi|].
  destruct sz as [|[|[|[|[|sz]]]]]; try discriminate Hsz;
    apply between_spec in Hsz; auto.
Qed.

Lemma accepted2_spec (b0 b1 lo hi : Z) :
  is_byte b0 ->
  Utf8.lead b0 = Some (2%nat, (lo, hi)) ->
  Utf8.between lo hi b1 = true ->
  encodes (Z.lor (Z.shiftl (Z.land b0 0x1F) 6) (Utf8.low6 b1)) [b0; b1] = true.
Proof.
  intros Hb Hl Hb1.
  destruct (lead_ranges b0 _ _ _ Hb Hl) as (Hlo & Hhi & [[_ R]|[[E _]|[E _]]]);
    try discriminate E.
  apply between_spec in Hb1 as R1.
  pose proof (upto_spec _ _ _ all_accepted2 b0 ltac:(lia)) as H. cbv beta in H.
  pose proof (upto_spec _ _ _ H b1 ltac:(lia)) as H1. cbv beta in H1.
  unfold accepted2 in H1. rewrite Hl, Hb1 in H1. exact H1.
Qed.

Lemma accepted3_spec (b0 b1 b2 lo hi : Z) :
  is_byte b0 ->
  Utf8.lead b0 = Some (3%nat, (lo, hi)) ->
  Utf8.between lo hi b1 = true ->
  Utf8.cont b2 = true ->
  encodes (Z.lor (Z.lor (Z.shiftl (Z.land b0 0x0F) 12)
                        (Z.shiftl (Utf8.low6 b1) 6)) (Utf8.low6 b2))
          [b0; b1; b2] = true.
Proof.
  intros Hb Hl Hb1 Hb2.
  destruct (lead_ranges b0 _ _ _ Hb Hl) as (Hlo & Hhi & [[E _]|[[_ R]|[E _]]]);
    try discriminate E.
  apply between_spec in Hb1 as R1. apply between_spec in Hb2 as R2.
  pose proof (upto_spec _ _ _ all_accepted3 b0 ltac:(lia)) as H. cbv beta in H.
  pose proof (upto_spec _ _ _ H b1 ltac:(lia)) as H1. cbv beta in H1.
  pose proof (upto_spec _ _ _ H1 b2 ltac:(lia)) as H2. cbv beta in H2.
  unfold accepted3 in H2. rewrite Hl, Hb1, Hb2 in H2. exact H2.
Qed.

Lemma zlist_eqb_refl (xs : list Z) : zlist_eqb xs xs = true.
Proof.
  induction xs as [|x xs IH]; [reflexivity|].
  cbn [zlist_eqb]. now rewrite Z.eqb_refl, IH.
Qed.

(** Six more bits behind a value. *)
Lemma lor_shiftl6 (p x : Z) :
  0 <= x < 64 ->
  let c := Z.lor (Z.shiftl p 6) x in
  Z.shiftr c 6 = p /\ Z.land c 0x3F = x /\ c = 64 * p + x.
Proof.
  intros Hx c.
  assert (Z.shiftr c 6 = p) as Hs.
  { unfold c. rewrite Z.shiftr_lor, Z.shiftr_shiftl_l by lia.
    rewrite (Z.shiftr_div_pow2 x 6) by lia. change (2 ^ 6) with 64.
    rewrite Z.div_small by lia. change (6 - 6) with 0.
    now rewrite Z.shiftl_0_r, Z.lor_0_r. }
  assert (Z.land c 0x3F = x) as Hl.
  { unfold c. rewrite Z.land_lor_distr_l.
    pose proof (Z.land_ones (Z.shiftl p 6) 6 ltac:(lia)) as E1.
    pose proof (Z.land_ones x 6 ltac:(lia)) as E2.
    change (Z.ones 6) with 0x3F in E1, E2. change (2 ^ 6) with 64 in E1, E2.
    rewrite E1, E2, Z.shiftl_mul_pow2 by lia. change (2 ^ 6) with 64.
    rewrite Z.mod_mul by lia. rewrite Z.mod_small by lia. reflexivity. }
  split; [exact Hs|]. split; [exact Hl|].
  pose proof (Z.land_ones c 6 ltac:(lia)) as E.
  change (Z.ones 6) with 0x3F in E. change (2 ^ 6) with 64 in E.
  rewrite (Z.shiftr_div_pow2 c 6) in Hs by lia. change (2 ^ 6) with 64 in Hs.
  pose proof (Z.div_mod c 64 ltac:(lia)). lia.
Qed.

Lemma accepted4_spec (b0 b1 b2 b3 lo hi : Z) :
  is_byte b0 ->
  Utf8.lead b0 = Some (4%nat, (lo, hi)) ->
  Utf8.between lo hi b1 = true ->
  Utf8.cont b2 = true ->
  Utf8.cont b3 = true ->
  encodes (Z.lor (Z.lor (Z.lor (Z.shiftl (Z.land b0 0x07) 18)
                               (Z.shiftl (Utf8.low6 b1) 12))
                        (Z.shiftl (Utf8.low6 b2) 6)) (Utf8.low6 b3))
          [b0; b1; b2; b3] = true.
Proof.
  intros Hb Hl Hb1 Hb2 Hb3.
  destruct (lead_ranges b0 _ _ _ Hb Hl) as (Hlo & Hhi & [[E _]|[[E _]|[_ R]]]);
    try discriminate E.
  apply between_spec in Hb1 as R1. apply between_spec in Hb2 as R2.
  apply between_spec in Hb3 as R3.
  pose proof (upto_spec _ _ _ all_accepted4 b0 ltac:(lia)) as H. cbv beta in H.
  pose proof (upto_spec _ _ _ H b1 ltac:(lia)) as H1. cbv beta in H1.
  pose proof (upto_spec _ _ _ H1 b2 ltac:(lia)) as H2. cbv beta in H2.
  unfold accepted4 in H2. rewrite Hl, Hb1, Hb2 in H2.
  cbn [Nat.eqb negb orb] in H2.
  rewrite !andb_true_iff in H2. destruct H2 as [[[[P1 P2] E0] E1] E2].
  apply Z.leb_le in P1, P2. apply Z.eqb_eq in E0, E1, E2.
  pose proof (upto_spec _ _ _ all_carry_low6 b3 ltac:(lia)) as H3.
  unfold carries_low6 in H3. rewrite !andb_true_iff in H3.
  destruct H3 as [[X1 X2] E3].
  apply Z.leb_le in X1. apply Z.ltb_lt in X2. apply Z.eqb_eq in E3.
  set (p := head4 b0 b1 b2) in *. set (x := Utf8.low6 b3) in *.
  assert (Z.lor (Z.lor (Z.lor (Z.shiftl (Z.land b0 0x07) 18)
                              (Z.shiftl (Utf8.low6 b1) 12))
                       (Z.shiftl (Utf8.low6 b2) 6)) x
          = Z.lor (Z.shiftl p 6) x) as ->.
  { unfold p, head4. rewrite !Z.shiftl_lor, !Z.shiftl_shiftl by lia.
    reflexivity. }
  destruct (lor_shiftl6 p x ltac:(lia)) as (S6 & L6 & C).
  set (c := Z.lor (Z.shiftl p 6) x) in *.
  unfold encodes. apply andb_true_iff. split.
  - unfold scalar. destruct (Z.leb_spec 0xE000 c); [|lia].
    destruct (Z.leb_spec c 0x10FFFF); [|lia]. apply orb_true_r.
  - unfold utf8_encode.
    destruct (Z.ltb_spec c 0x80); [lia|].
    destruct (Z.ltb_spec c 0x800); [lia|].
    destruct (Z.ltb_spec c 0x10000); [lia|].
    replace (Z.shiftr c 18) with (Z.shiftr p 12)
      by (rewrite <- S6, Z.shiftr_shiftr by lia; reflexivity).
    replace (Z.shiftr c 12) with (Z.shiftr p 6)
      by (rewrite <- S6, Z.shiftr_shiftr by lia; reflexivity).
    rewrite S6, L6, E0, E1, E2, E3. apply zlist_eqb_refl.
Qed.

Lemma scalar_ascii (b : Z) : 0 <= b -> (b <? 0x80) = true -> encodes b [b] = true.
Proof.
  intros H0 H. unfold encodes, utf8_encode, scalar. rewrite H.
  apply Z.ltb_lt in H.
  destruct (Z.leb_spec 0 b); [|lia]. destruct (Z.ltb_spec b 0xD800); [|lia].
  cbn [andb orb zlist_eqb]. now rewrite Z.eqb_refl.
Qed.

Lemma encode_RuneError : utf8_encode Utf8.RuneError = [0xEF; 0xBF; 0xBD].
Proof. reflexivity. Qed.

(** A position where the decoder gives up starts no encoding of a scalar
    value. *)
Lemma no_encoding_where_decoder_fails (b0 : Z) (r0 : list Z) :
  Utf8.runes (b0 :: r0) = Utf8.RuneError :: Utf8.runes r0 ->
  (b0 = 0xEF -> forall t, r0 <> 0xBF :: 0xBD :: t) ->
  forall c t, scalar c = true -> utf8_encode c ++ t <> b0 :: r0.
Proof.
  intros Hr Hne c t Hs E.
  pose proof (runes_encode_app c t (proj1 (scalar_encoding c Hs))) as R.
  rewrite E, Hr in R. injection R as Hc _. subst c.
  rewrite encode_RuneError in E. cbn [app] in E.
  injection E as E0 E1. symmetry in E0, E1. exact (Hne E0 t E1).
Qed.

(** One iteration of the decoder: either the bytes start with the encoding
    of a scalar value, which is yielded and skipped, or no such encoding
    starts here and U+FFFD is yielded for one byte. *)
Lemma runes_cons_cases (b0 : Z) (r0 : list Z) :
  Forall is_byte (b0 :: r0) ->
  (exists c rest,
      scalar c = true /\ utf8_encode c ++ rest = b0 :: r0
      /\ Utf8.runes (b0 :: r0) = c :: Utf8.runes rest)
  \/ ((forall c t, scalar c = true -> utf8_encode c ++ t <> b0 :: r0)
      /\ Utf8.runes (b0 :: r0) = Utf8.RuneError :: Utf8.runes r0).
Proof.
  intros HB.
  assert (is_byte b0) as Hb0 by (inversion HB; assumption).
  assert (forall X,
             Utf8.runes (b0 :: r0) = X ->
             X = Utf8.RuneError :: Utf8.runes r0 ->
             (b0 = 0xEF -> forall t, r0 <> 0xBF :: 0xBD :: t) ->
             (forall c t, scalar c = true -> utf8_encode c ++ t <> b0 :: r0)
             /\ X = Utf8.RuneError :: Utf8.runes r0) as Fail.
  { intros X HX -> Hne. split; [|reflexivity].
    now apply no_encoding_where_decoder_fails. }
  assert (forall c bs rest X,
             Utf8.runes (b0 :: r0) = X ->
             X = c :: Utf8.runes rest ->
             bs ++ rest = b0 :: r0 ->
             encodes c bs = true ->
             exists c rest,
               scalar c = true /\ utf8_encode c ++ rest = b0 :: r0
               /\ X = c :: Utf8.runes rest) as Good.
  { intros c bs rest X _ -> Hbs He. apply encodes_spec in He.
    destruct He as [Hs <-]. exists c, rest. auto. }
  set (X := Utf8.runes (b0 :: r0)).
  assert (Utf8.runes (b0 :: r0) = X) as HX by reflexivity.
  assert (X = Utf8.runes (b0 :: r0)) as E by reflexivity.
  clearbody X. cbn [Utf8.runes] in E.
  destruct (b0 <? 0x80) eqn:Ha.
  { left. apply (Good b0 [b0] r0 X HX E eq_refl).
    apply scalar_ascii; [apply Hb0|exact Ha]. }
  destruct (Utf8.lead b0) as [[sz [lo hi]]|] eqn:Hl.
  2:{ right. apply (Fail X HX E). intros -> t _. discriminate Hl. }
  destruct r0 as [|b1 r1].
  { right. apply (Fail X HX E). intros _ t Ht. discriminate Ht. }
  destruct (Utf8.between lo hi b1) eqn:Hb1; cbn [negb] in E.
  2:{ right. apply (Fail X HX E). intros -> t Ht. injection Ht as -> _.
      vm_compute in Hl. injection Hl as <- <- <-. discriminate Hb1. }
  destruct (Nat.eqb sz 2) eqn:H2.
  { left. apply Nat.eqb_eq in H2. subst sz.
    apply (Good _ [b0; b1] r1 X HX E eq_refl).
    now apply (accepted2_spec b0 b1 lo hi). }
  destruct r1 as [|b2 r2].
  { right. apply (Fail X HX E). intros _ t Ht. discriminate Ht. }
  destruct (Utf8.cont b2) eqn:Hb2; cbn [negb] in E.
  2:{ right. apply (Fail X HX E). intros -> t Ht. injection Ht as _ -> _.
      discriminate Hb2. }
  destruct (Nat.eqb sz 3) eqn:H3.
  { left. apply Nat.eqb_eq in H3. subst sz.
    apply (Good _ [b0; b1; b2] r2 X HX E eq_refl).
    now apply (accepted3_spec b0 b1 b2 lo hi). }
  assert (sz = 4%nat) as ->.
  { destruct (lead_ranges b0 _ _ _ Hb0 Hl) as (_ & _ & [[-> _]|[[-> _]|[-> _]]]);
      [discriminate H2|discriminate H3|reflexivity]. }
  destruct r2 as [|b3 r3].
  { right. apply (Fail X HX E). intros -> t _.
    vm_compute in Hl. discriminate Hl. }
  destruct (Utf8.cont b3) eqn:Hb3; cbn [negb] in E.
  2:{ right. apply (Fail X HX E). intros -> t _.
      vm_compute in Hl. discriminate Hl. }
  left. apply (Good _ [b0; b1; b2; b3] r3 X HX E eq_refl).
  now apply (accepted4_spec b0 b1 b2 b3 lo hi).
Qed.

Lemma utf8_encode_nonempty (c : Z) : (1 <= length (utf8_encode c))%nat.
Proof.
  unfold utf8_encode.
  destruct (c <? 0x80); [cbn; lia|].
  destruct (c <? 0x800); [cbn; lia|].
  destruct (c <? 0x10000); cbn; lia.
Qed.

(** Ranging over a byte string yields its code points. *)
Lemma runes_are_code_points (s : list Z) :
  Forall is_byte s -> code_points s (Utf8.runes s).
Proof.
  remember (length s) as n eqn:Hn. revert s Hn.
  induction n as [n IH] using lt_wf_ind. intros s Hn HB.
  destruct s as [|b0 r0]; [constructor|].
  destruct (runes_cons_cases b0 r0 HB)
    as [(c & rest & Hs & He & Hr)|[Hno Hr]].
  - rewrite Hr, <- He. apply cp_scalar; [exact Hs|].
    rewrite <- He in HB, Hn. apply Forall_app in HB. destruct HB as [_ HB].
    apply (IH (length rest)); [|reflexivity|exact HB].
    rewrite Hn, length_app. pose proof (utf8_encode_nonempty c). lia.
  - rewrite Hr. apply cp_invalid; [exact Hno|].
    inversion HB; subst.
    apply (IH (length r0)); [cbn; lia|reflexivity|assumption].
Qed.

(** A byte string has one sequence of code points only. *)
Lemma code_points_are_runes (s cps : list Z) :
  Forall is_byte s -> code_points s cps -> cps = Utf8.runes s.
Proof.
  intros HB H. induction H as [|c rest cps Hs H IH|b rest cps Hno H IH].
  - reflexivity.
  - apply Forall_app in HB. destruct HB as [_ HB].
    rewrite runes_encode_app by now apply scalar_encoding.
    now rewrite IH.
  - destruct (runes_cons_cases b rest HB)
      as [(c & t & Hs & He & _)|[_ Hr]].
    + exfalso. exact (Hno c t Hs He).
    + inversion HB; subst. rewrite Hr, IH by assumption. reflexivity.
Qed.

Lemma bytes_are_bytes (text : string) : Forall is_byte (Utf8.bytes text).
Proof.
  induction text as [|a text IH]; cbn [Utf8.bytes]; constructor; [|exact IH].
  unfold is_byte. pose proof (nat_ascii_bounded a). lia.
Qed.

(** The code points of well-formed text are the scalar values it encodes. *)
Lemma code_points_of_encoding (cs : list Z) :
  forallb scalar cs = true -> code_points (flat_map utf8_encode cs) cs.
Proof.
  induction cs as [|c cs IH]; intros H; [constructor|].
  cbn [forallb] in H. apply andb_true_iff in H. destruct H as [Hc Hcs].
  cbn [flat_map]. apply cp_scalar; auto.
Qed.

(** ** C8: one data byte per code point *)

(** C8: for every string, [Print] returns normally after sending exactly
    one data byte per Unicode code point of the string, in order, each byte
    the code point reduced to its low eight bits.  The code points are those
    of [code_points], stated with the UTF-8 encoder alone: a scalar value
    where its encoding starts, U+FFFD for a byte where no encoding starts.
    Every string has exactly one sequence of code points, and it is the
    sequence of runes that ranging over the string yields. *)
Theorem Print_one_byte_per_rune (text : string) (l : I2CLCD) (wd : World) :
  code_points (Utf8.bytes text) (Utf8.range text)
  /\ (forall cps,
        code_points (Utf8.bytes text) cps ->
        received (events (Print text) l wd)
          = map (fun c => (true, c mod 256)) cps
        /\ events (Print text) l wd
           = flat_map (fun c => events (sendData (c mod 256)) l wd) cps
        /\ length (received (events (Print text) l wd)) = length cps)
  /\ outcome (Print text) l wd = Ret tt
  /\ session_after (Print text) l wd = l
  /\ events (Print text) l wd
     = flat_map (fun char => events (sendData (Z.land char 0xFF)) l wd)
                (Utf8.range text)
  /\ received (events (Print text) l wd)
     = map (fun char => (true, char mod 256)) (Utf8.range text)
  /\ length (received (events (Print text) l wd)) = length (Utf8.range text).
Proof.
  pose proof (bytes_are_bytes text) as HB.
  pose proof (yields_Print text l) as Y.
  rewrite (yields_outcome _ _ _ _ _ wd Y), (yields_session _ _ _ _ _ wd Y),
    (yields_events _ _ _ _ _ wd Y).
  rewrite received_data_map, length_map.
  assert (forall rs,
             data_events l (map byte_of_rune rs)
             = flat_map (fun c => events (sendData (c mod 256)) l wd) rs) as D.
  { intros rs. unfold data_events.
    rewrite flat_map_concat_map, map_map, flat_map_concat_map.
    f_equal. apply map_ext. intros r. now rewrite events_sendData. }
  split; [now apply runes_are_code_points|].
  split.
  { intros cps Hc.
    rewrite (code_points_are_runes _ _ HB Hc). fold (Utf8.range text).
    repeat split. apply D. }
  repeat split.
  rewrite D. rewrite !flat_map_concat_map. f_equal. apply map_ext. intros r.
  pose proof (Z.land_ones r 8 ltac:(lia)) as E.
  change (Z.ones 8) with 0xFF in E. change (2 ^ 8) with 256 in E.
  now rewrite E.
Qed.

(** Code points of a string with a two-byte encoding, a byte that starts no
    encoding and an encoding cut short. *)
Example code_points_mixed :
  code_points [0x48; 0xC3; 0xA9; 0xFF; 0xE2; 0x82] [0x48; 0xE9; 0xFFFD; 0xFFFD; 0xFFFD]
  /\ Utf8.runes [0x48; 0xC3; 0xA9; 0xFF; 0xE2; 0x82]
     = [0x48; 0xE9; 0xFFFD; 0xFFFD; 0xFFFD].
Proof.
  split; [|reflexivity].
  change [0x48; 0xE9; 0xFFFD; 0xFFFD; 0xFFFD]
    with (Utf8.runes [0x48; 0xC3; 0xA9; 0xFF; 0xE2; 0x82]).
  apply runes_are_code_points. repeat constructor; unfold is_byte; lia.
Qed.
